(** * samtom4: conversion of SAM records to blasr M4 rows

    A shallow embedding of [utils/SamToM4.cpp].  The program is one [main]
    function: it loads a reference catalogue and the header of a SAM file,
    binds the header's short reference names to the catalogue's full titles,
    and then turns every SAM record into one M4 row.

    The library calls made by [main] (reference rearrangement, CIGAR
    decoding, alignment statistics) are not part of the translated file.
    They enter the embedding as the variables of a section, so that every
    statement about [main] holds for whatever the library computes; the
    module [Model] further down gives them bodies written from the
    specification, which are used to evaluate the pipeline on concrete
    inputs. *)

From Stdlib Require Import QArith Ascii.
From stdpp Require Import gmap strings list.
Close Scope Q_scope.

(** ** Data model *)

(** Modelled from the spec: the catalogue entry type [FASTASequence] is
    declared in the FASTA library, not in [SamToM4.cpp]; §6 describes a
    reference as a (title, sequence) pair. *)
Module FASTASequence.
Record t := mk { title : string; seq : string }.
End FASTASequence.

(** Modelled from the spec: the header descriptor type
    [SAMFullReferenceSequence] is declared in the SAM library.  [main] reads
    it through [GetSequenceName] and writes the field [sequenceName]; the
    index built at lines 125-129 is keyed by the names written at line 120,
    so the accessor returns that field. *)
Module SAMFullReferenceSequence.
Record t := mk { sequenceName : string; seqLength : Z }.

Definition GetSequenceName (r : t) : string := sequenceName r.

Definition set_sequenceName (n : string) (r : t) : t :=
  {| sequenceName := n; seqLength := seqLength r |}.
End SAMFullReferenceSequence.

(** Modelled from the spec: the record type [SAMAlignment] is declared in
    the SAM library.  §3 lists its content: reference short name, CIGAR
    string, flag bits, alignment score, mapping quality, the original full
    query length (0 when the record does not carry it) and the position
    fields.  [as_] stands for the C++ field [as]. *)
Module SAMAlignment.
Record t := mk {
  qName : string;
  flag : Z;
  rName : string;
  pos : Z;
  mapQV : Z;
  cigar : string;
  seq : string;
  as_ : Z;
  xq : Z
}.

Definition set_rName (n : string) (s : t) : t :=
  {| qName := qName s; flag := flag s; rName := n; pos := pos s;
     mapQV := mapQV s; cigar := cigar s; seq := seq s; as_ := as_ s;
     xq := xq s |}.
End SAMAlignment.

(** Orientation of one side of an alignment. *)
Inductive Strand := Forward | Reverse.

#[global] Instance Strand_eq_dec : EqDecision Strand.
Proof. solve_decision. Defined.

(** Modelled from the spec: the type [AlignmentCandidate] is declared in the
    alignment library.  §3 gives its content: names, spans and orientation
    of both sides, the aligned pair (gaps written as '-'), and the
    statistics.  The percent identity is a floating-point number in C++; it
    is kept here as an exact rational. *)
Module AlignmentCandidate.
Record t := mk {
  qName : string;
  tName : string;
  qStrand : Strand;
  tStrand : Strand;
  qPos : Z;
  tPos : Z;
  qLength : Z;
  tLength : Z;
  qAlignedSeq : string;
  tAlignedSeq : string;
  nMatch : Z;
  nMismatch : Z;
  nIns : Z;
  nDel : Z;
  score : Z;
  pctSimilarity : Q;
  mapQV : Z
}.

Definition set_score (v : Z) (a : t) : t :=
  {| qName := qName a; tName := tName a; qStrand := qStrand a;
     tStrand := tStrand a; qPos := qPos a; tPos := tPos a;
     qLength := qLength a; tLength := tLength a;
     qAlignedSeq := qAlignedSeq a; tAlignedSeq := tAlignedSeq a;
     nMatch := nMatch a; nMismatch := nMismatch a; nIns := nIns a;
     nDel := nDel a; score := v; pctSimilarity := pctSimilarity a;
     mapQV := mapQV a |}.

Definition set_mapQV (v : Z) (a : t) : t :=
  {| qName := qName a; tName := tName a; qStrand := qStrand a;
     tStrand := tStrand a; qPos := qPos a; tPos := tPos a;
     qLength := qLength a; tLength := tLength a;
     qAlignedSeq := qAlignedSeq a; tAlignedSeq := tAlignedSeq a;
     nMatch := nMatch a; nMismatch := nMismatch a; nIns := nIns a;
     nDel := nDel a; score := score a; pctSimilarity := pctSimilarity a;
     mapQV := v |}.

Definition set_qLength (v : Z) (a : t) : t :=
  {| qName := qName a; tName := tName a; qStrand := qStrand a;
     tStrand := tStrand a; qPos := qPos a; tPos := tPos a;
     qLength := v; tLength := tLength a;
     qAlignedSeq := qAlignedSeq a; tAlignedSeq := tAlignedSeq a;
     nMatch := nMatch a; nMismatch := nMismatch a; nIns := nIns a;
     nDel := nDel a; score := score a; pctSimilarity := pctSimilarity a;
     mapQV := mapQV a |}.
End AlignmentCandidate.

(** What the CIGAR decoder hands back: the vector [convertedAlignments], or
    a failure of the build (§4.3, fatal for the run). *)
Inductive BuildResult :=
| Candidates (convertedAlignments : list AlignmentCandidate.t)
| BuildFailure.

(** ** Effects of [main] *)

(** How the process ends. *)
Inductive Status :=
| Returned          (* [return 0] at the end of [main] *)
| ExitFailure       (* [std::exit(EXIT_FAILURE)] *)
| AssertionFailed   (* a failed [assert], which aborts *)
| OutOfBounds       (* [operator[]] past the end of a vector *)
| BuildFailed.      (* the CIGAR decoder gave up *)

#[global] Instance Status_eq_dec : EqDecision Status.
Proof. solve_decision. Defined.

(** What the process writes, in order.  Rows and the header line go to
    [*outFilePtr], messages to [std::cout]. *)
Inductive Event :=
| PrintHeader
| PrintFromSAM (alignment : AlignmentCandidate.t)
| Cout (message : string).

(** A computation writes events and either yields a value or ends the
    process. *)
Definition M (A : Type) : Type := (list Event * (A + Status))%type.

#[global] Instance M_ret : MRet M := λ A a, ([], inl a).

#[global] Instance M_bind : MBind M := λ A B f m,
  match m with
  | (out, inl a) => let '(out', r) := f a in (out ++ out', r)
  | (out, inr st) => (out, inr st)
  end.

Definition emit (e : Event) : M unit := ([e], inl tt).
Definition cout (message : string) : M unit := emit (Cout message).
Definition halt {A : Type} (st : Status) : M A := ([], inr st).

(** [assert(c)] of <cassert>, with assertions compiled in. *)
Definition assert (c : bool) : M unit :=
  if c then mret tt else halt AssertionFailed.

(** The end of one pass through a loop body ([continue], or falling off
    its end). *)
Definition continue : M unit := mret tt.

(** [s.find(c) != std::string::npos] is [is_Some (string_find c s)]. *)
Fixpoint string_find (c : Ascii.ascii) (s : string) : option nat :=
  match s with
  | EmptyString => None
  | String a s' => if Ascii.eqb a c then Some 0 else S <$> string_find c s'
  end.

(** The outcome of a whole run: what was written, how the process ended,
    and the records [GetNextAlignment] had not yet delivered. *)
Record Run := mkRun {
  trace : list Event;
  status : Status;
  unread : list SAMAlignment.t
}.

(** The run that first writes [out] and then goes on as [r]. *)
Definition after (out : list Event) (r : Run) : Run :=
  {| trace := out ++ trace r; status := status r; unread := unread r |}.

(** The state [main] has built when the record loop starts. *)
Record Catalog := mkCatalog {
  shortRefNameToFull : gmap string string;
  alignmentSet_references : list SAMFullReferenceSequence.t;
  refNameToIndex : gmap string Z
}.

(** ** The program *)

Section Pipeline.

(** The library services [main] calls.  [RearrangeReferences] reorders the
    header's descriptors after the catalogue; [SAMAlignmentsToCandidates]
    decodes one record into candidates; [ComputeAlignmentStats] fills in
    the statistics of a candidate from its aligned pair and a score
    function. *)
Context {T_ScoreFn : Type}.
Variable RearrangeReferences :
  list FASTASequence.t → list SAMFullReferenceSequence.t →
  list SAMFullReferenceSequence.t.
Variable SAMAlignmentsToCandidates :
  SAMAlignment.t → list FASTASequence.t → gmap string Z → bool → bool →
  BuildResult.
Variable ComputeAlignmentStats :
  AlignmentCandidate.t → string → string → T_ScoreFn → AlignmentCandidate.t.
Variable distScoreFn : T_ScoreFn.

(** Line 43: no option sets it. *)
Definition parseSmrtTitle : bool := false.

(** Line 180. *)
Definition keepRefAsForward : bool := false.

(** Lines 111-121, entered with [shortRefNameToFull] empty: the loop over
    [i < references.size()], at index [i] with [todo] the catalogue
    entries from [i] on. *)
Fixpoint bind_names (i : nat) (todo : list FASTASequence.t)
    (shortRefNameToFull : gmap string string)
    (refs : list SAMFullReferenceSequence.t)
    : M (gmap string string * list SAMFullReferenceSequence.t) :=
  match todo with
  | [] => mret (shortRefNameToFull, refs)
  | reference :: todo' =>
      match refs !! i with
      | None => halt OutOfBounds
      | Some r =>
          let shortRefName := SAMFullReferenceSequence.GetSequenceName r in
          let fullRefName := FASTASequence.title reference in
          if decide (is_Some (shortRefNameToFull !! shortRefName)) then
            cout ("ERROR, Found more than one reference " +:+ shortRefName
                  +:+ "in sam header") ;;
            halt ExitFailure
          else
            bind_names (S i) todo'
              (<[shortRefName := fullRefName]> shortRefNameToFull)
              (<[i := SAMFullReferenceSequence.set_sequenceName fullRefName r]>
                 refs)
      end
  end.

(** Lines 125-129. *)
Fixpoint index_names (i : nat) (todo : list FASTASequence.t)
    (refNameToIndex : gmap string Z)
    (refs : list SAMFullReferenceSequence.t) : M (gmap string Z) :=
  match todo with
  | [] => mret refNameToIndex
  | _ :: todo' =>
      match refs !! i with
      | None => halt OutOfBounds
      | Some r =>
          let refName := SAMFullReferenceSequence.GetSequenceName r in
          index_names (S i) todo' (<[refName := Z.of_nat i]> refNameToIndex)
            refs
      end
  end.

(** Lines 101-129: everything [main] does before the record loop. *)
Definition setup (useShortRefName : bool)
    (references : list FASTASequence.t)
    (header : list SAMFullReferenceSequence.t) : M Catalog :=
  let refs := RearrangeReferences references header in
  assert (bool_decide (length references = length refs)) ;;
  '(names, refs) ←
    (if negb useShortRefName then bind_names 0 references ∅ refs
     else mret (∅, refs)) ;
  index ← index_names 0 references ∅ refs ;
  mret {| shortRefNameToFull := names;
          alignmentSet_references := refs;
          refNameToIndex := index |}.

(** Lines 155-164: the record with its reference name resolved. *)
Definition resolve_name (useShortRefName : bool)
    (names : gmap string string) (samAlignment : SAMAlignment.t)
    : M SAMAlignment.t :=
  if negb useShortRefName then
    match names !! SAMAlignment.rName samAlignment with
    | None =>
        cout ("ERROR, Could not find " +:+ SAMAlignment.rName samAlignment
              +:+ " in the reference repository.") ;;
        halt ExitFailure
    | Some full => mret (SAMAlignment.set_rName full samAlignment)
    end
  else mret samAlignment.

(** Lines 198-208: the fields taken over from the source record. *)
Definition reconcile (samAlignment : SAMAlignment.t)
    (alignment : AlignmentCandidate.t) : AlignmentCandidate.t :=
  let alignment :=
    AlignmentCandidate.set_score (SAMAlignment.as_ samAlignment) alignment in
  let alignment :=
    AlignmentCandidate.set_mapQV (SAMAlignment.mapQV samAlignment) alignment in
  if decide (SAMAlignment.xq samAlignment ≠ 0%Z) then
    AlignmentCandidate.set_qLength (SAMAlignment.xq samAlignment) alignment
  else alignment.

(** Lines 151-214: one pass through the body of the record loop. *)
Definition loop_body (useShortRefName : bool)
    (references : list FASTASequence.t) (cat : Catalog)
    (samAlignment : SAMAlignment.t) : M unit :=
  if decide (SAMAlignment.rName samAlignment = "*") then continue
  else
    samAlignment ←
      resolve_name useShortRefName (shortRefNameToFull cat) samAlignment ;
    if decide (is_Some (string_find "P"%char (SAMAlignment.cigar samAlignment)))
    then
      cout "WARNING. Could not process sam record with 'P' in its cigar string." ;;
      continue
    else
      match SAMAlignmentsToCandidates samAlignment references
              (refNameToIndex cat) parseSmrtTitle keepRefAsForward with
      | BuildFailure => halt BuildFailed
      | Candidates convertedAlignments =>
          if decide (1 < length convertedAlignments) then
            cout "WARNING. Ignore an alignment which has multiple segments." ;;
            continue
          else
            match convertedAlignments !! 0%nat with
            | None => halt OutOfBounds
            | Some alignment =>
                let alignment :=
                  ComputeAlignmentStats alignment
                    (AlignmentCandidate.qAlignedSeq alignment)
                    (AlignmentCandidate.tAlignedSeq alignment)
                    distScoreFn in
                emit (PrintFromSAM (reconcile samAlignment alignment))
            end
      end.

(** The seven ways through the loop body, each with what it needs of the
    record and what the pass writes and yields. *)
Inductive body_case (useShortRefName : bool)
    (references : list FASTASequence.t) (cat : Catalog)
    (sam : SAMAlignment.t) : M unit → Prop :=
| case_unmapped :
    SAMAlignment.rName sam = "*" →
    body_case useShortRefName references cat sam ([], inl tt)
| case_unresolved :
    SAMAlignment.rName sam ≠ "*" →
    useShortRefName = false →
    shortRefNameToFull cat !! SAMAlignment.rName sam = None →
    body_case useShortRefName references cat sam
      ([Cout ("ERROR, Could not find " +:+ SAMAlignment.rName sam
              +:+ " in the reference repository.")], inr ExitFailure)
| case_padded sam' :
    SAMAlignment.rName sam ≠ "*" →
    resolve_name useShortRefName (shortRefNameToFull cat) sam
      = ([], inl sam') →
    is_Some (string_find "P"%char (SAMAlignment.cigar sam')) →
    body_case useShortRefName references cat sam
      ([Cout "WARNING. Could not process sam record with 'P' in its cigar string."],
       inl tt)
| case_build_failure sam' :
    SAMAlignment.rName sam ≠ "*" →
    resolve_name useShortRefName (shortRefNameToFull cat) sam
      = ([], inl sam') →
    string_find "P"%char (SAMAlignment.cigar sam') = None →
    SAMAlignmentsToCandidates sam' references (refNameToIndex cat)
      parseSmrtTitle keepRefAsForward = BuildFailure →
    body_case useShortRefName references cat sam ([], inr BuildFailed)
| case_multi_segment sam' convertedAlignments :
    SAMAlignment.rName sam ≠ "*" →
    resolve_name useShortRefName (shortRefNameToFull cat) sam
      = ([], inl sam') →
    string_find "P"%char (SAMAlignment.cigar sam') = None →
    SAMAlignmentsToCandidates sam' references (refNameToIndex cat)
      parseSmrtTitle keepRefAsForward = Candidates convertedAlignments →
    1 < length convertedAlignments →
    body_case useShortRefName references cat sam
      ([Cout "WARNING. Ignore an alignment which has multiple segments."],
       inl tt)
| case_no_candidate sam' :
    SAMAlignment.rName sam ≠ "*" →
    resolve_name useShortRefName (shortRefNameToFull cat) sam
      = ([], inl sam') →
    string_find "P"%char (SAMAlignment.cigar sam') = None →
    SAMAlignmentsToCandidates sam' references (refNameToIndex cat)
      parseSmrtTitle keepRefAsForward = Candidates [] →
    body_case useShortRefName references cat sam ([], inr OutOfBounds)
| case_emitted sam' candidate :
    SAMAlignment.rName sam ≠ "*" →
    resolve_name useShortRefName (shortRefNameToFull cat) sam
      = ([], inl sam') →
    string_find "P"%char (SAMAlignment.cigar sam') = None →
    SAMAlignmentsToCandidates sam' references (refNameToIndex cat)
      parseSmrtTitle keepRefAsForward = Candidates [candidate] →
    body_case useShortRefName references cat sam
      ([PrintFromSAM
          (reconcile sam'
             (ComputeAlignmentStats candidate
                (AlignmentCandidate.qAlignedSeq candidate)
                (AlignmentCandidate.tAlignedSeq candidate) distScoreFn))],
       inl tt).

(** Lines 150-215: [while (samReader.GetNextAlignment(samAlignment))]. *)
Fixpoint while_loop (useShortRefName : bool)
    (references : list FASTASequence.t) (cat : Catalog)
    (records : list SAMAlignment.t) : Run :=
  match records with
  | [] => {| trace := []; status := Returned; unread := [] |}
  | samAlignment :: rest =>
      match loop_body useShortRefName references cat samAlignment with
      | (out, inl _) =>
          after out (while_loop useShortRefName references cat rest)
      | (out, inr st) => {| trace := out; status := st; unread := rest |}
      end
  end.

(** [main], from the loaded inputs on: the two flags, the catalogue read
    by [ReadAllSequences], the descriptors read by [ReadHeader], and the
    records the reader will deliver. *)
Definition main (printHeader useShortRefName : bool)
    (references : list FASTASequence.t)
    (header : list SAMFullReferenceSequence.t)
    (records : list SAMAlignment.t) : Run :=
  match setup useShortRefName references header with
  | (out, inr st) => {| trace := out; status := st; unread := records |}
  | (out, inl cat) =>
      after (out ++ (if printHeader then [PrintHeader] else []))
        (while_loop useShortRefName references cat records)
  end.

End Pipeline.

(** ** The library services, as the specification describes them *)

Module Model.

(** Modelled from the spec: [IsReverseComplement] is the SAM library's
    test of the record's reverse-complement flag bit (§3 "flag bits
    (including reverse-complement flag)"); in SAM this is bit 0x10. *)
Definition IsReverseComplement (flag : Z) : bool := Z.testbit flag 4.

(** Modelled from the spec: [RearrangeReferences] belongs to the alignment
    set class of the SAM library.  §4.1: it "reorders the header-derived
    list to match the catalog-file order".  The rule that pairs a
    descriptor with a catalogue entry is not stated; this instance serves
    headers that already list the references in catalogue order, for
    which the reordering changes nothing. *)
Definition RearrangeReferences (references : list FASTASequence.t)
    (header : list SAMFullReferenceSequence.t)
    : list SAMFullReferenceSequence.t := header.

Definition digit_of (c : ascii) : option nat :=
  let n := nat_of_ascii c in
  if (48 <=? n)%nat && (n <=? 57)%nat then Some (n - 48)%nat else None.

(** Modelled from the spec: the CIGAR string split into its operations
    (glossary, "CIGAR"): runs of decimal digits, each closed by the
    operator character it counts. *)
Fixpoint Vectorize (count : nat) (cigar : string) : list (nat * ascii) :=
  match cigar with
  | EmptyString => []
  | String c rest =>
      match digit_of c with
      | Some d => Vectorize (10 * count + d) rest
      | None => (count, c) :: Vectorize 0 rest
      end
  end.

Definition gaps (n : nat) : list ascii := replicate n "-"%char.

(** The aligned pair built so far and the bases consumed on either side. *)
Record Decoded := mkDecoded {
  qAligned : list ascii;
  tAligned : list ascii;
  qUsed : nat;
  tUsed : nat
}.

(** Modelled from the spec: CIGAR decoding (§4.3): the operations are
    replayed against the query bases and the reference from the start
    position on, "gaps materialized for insertions/deletions".  A token
    that runs past the reference fails the build (§4.3); the query side is
    treated alike, which keeps the two aligned strings of equal length
    (§3). *)
Fixpoint decode (ops : list (nat * ascii)) (q t : list ascii)
    : option Decoded :=
  match ops with
  | [] => Some (mkDecoded [] [] 0 0)
  | (n, op) :: ops' =>
      let both :=
        if decide (n ≤ length q ∧ n ≤ length t) then
          d ← decode ops' (drop n q) (drop n t) ;
          Some (mkDecoded (take n q ++ qAligned d) (take n t ++ tAligned d)
                  (n + qUsed d) (n + tUsed d))
        else None in
      let query_only (columns : bool) :=
        if decide (n ≤ length q) then
          d ← decode ops' (drop n q) t ;
          Some (mkDecoded
                  ((if columns then take n q else []) ++ qAligned d)
                  ((if columns then gaps n else []) ++ tAligned d)
                  (n + qUsed d) (tUsed d))
        else None in
      let target_only (columns : bool) :=
        if decide (n ≤ length t) then
          d ← decode ops' q (drop n t) ;
          Some (mkDecoded
                  ((if columns then gaps n else []) ++ qAligned d)
                  ((if columns then take n t else []) ++ tAligned d)
                  (qUsed d) (n + tUsed d))
        else None in
      if decide (op = "M"%char ∨ op = "="%char ∨ op = "X"%char) then both
      else if decide (op = "I"%char) then query_only true
      else if decide (op = "D"%char) then target_only true
      else if decide (op = "S"%char) then query_only false
      else if decide (op = "N"%char) then target_only false
      else if decide (op = "H"%char) then decode ops' q t
      else None
  end.

Definition complement (c : ascii) : ascii :=
  if decide (c = "A"%char) then "T"%char
  else if decide (c = "C"%char) then "G"%char
  else if decide (c = "G"%char) then "C"%char
  else if decide (c = "T"%char) then "A"%char
  else c.

Definition reverse_complement (s : list ascii) : list ascii :=
  complement <$> reverse s.

Definition strand_of (reversed : bool) : Strand :=
  if reversed then Reverse else Forward.

(** Modelled from the spec: [SAMAlignmentsToCandidates] is the candidate
    builder of the alignment library (§4.3).  The reference is found
    through the name index (§4.1); one candidate is built per record
    (§2).  With [keepRefAsForward] the orientation rule of §4.3 applies:
    the target is forward, and a set reverse-complement flag makes the
    query reverse with its aligned sequence reverse-complemented.  The
    specification does not describe the builder without
    [keepRefAsForward]; the same alignment is then written from the
    other side, the query forward and the target carrying the flag. *)
Definition SAMAlignmentsToCandidates (sam : SAMAlignment.t)
    (references : list FASTASequence.t) (refNameToIndex : gmap string Z)
    (parseSmrtTitle keepRefAsForward : bool) : BuildResult :=
  match refNameToIndex !! SAMAlignment.rName sam with
  | None => BuildFailure
  | Some index =>
      match references !! Z.to_nat index with
      | None => BuildFailure
      | Some reference =>
          let t := String.list_ascii_of_string (FASTASequence.seq reference) in
          let q := String.list_ascii_of_string (SAMAlignment.seq sam) in
          let tStart := Z.to_nat (SAMAlignment.pos sam - 1) in
          match decode (Vectorize 0 (SAMAlignment.cigar sam)) q
                  (drop tStart t) with
          | None => BuildFailure
          | Some d =>
              let rc := IsReverseComplement (SAMAlignment.flag sam) in
              Candidates
                [ {| AlignmentCandidate.qName := SAMAlignment.qName sam;
                     AlignmentCandidate.tName := SAMAlignment.rName sam;
                     AlignmentCandidate.qStrand :=
                       if keepRefAsForward then strand_of rc else Forward;
                     AlignmentCandidate.tStrand :=
                       if keepRefAsForward then Forward else strand_of rc;
                     AlignmentCandidate.qPos := 0;
                     AlignmentCandidate.tPos := Z.of_nat tStart;
                     AlignmentCandidate.qLength := Z.of_nat (qUsed d);
                     AlignmentCandidate.tLength := Z.of_nat (length t);
                     AlignmentCandidate.qAlignedSeq :=
                       String.string_of_list_ascii
                         (if keepRefAsForward && rc
                          then reverse_complement (qAligned d)
                          else qAligned d);
                     AlignmentCandidate.tAlignedSeq :=
                       String.string_of_list_ascii (tAligned d);
                     AlignmentCandidate.nMatch := 0;
                     AlignmentCandidate.nMismatch := 0;
                     AlignmentCandidate.nIns := 0;
                     AlignmentCandidate.nDel := 0;
                     AlignmentCandidate.score := 0;
                     AlignmentCandidate.pctSimilarity := 0%Q;
                     AlignmentCandidate.mapQV := 0 |} ]
          end
      end
  end.

(** Column counts of an aligned pair. *)
Record Counts := mkCounts {
  matches : Z;
  mismatches : Z;
  insertions : Z;
  deletions : Z
}.

Definition columns (c : Counts) : Z :=
  matches c + mismatches c + insertions c + deletions c.

(** Modelled from the spec: the column walk of the statistics engine
    (§4.4): each column is a match, a mismatch, an insertion (gap in the
    target) or a deletion (gap in the query). *)
Fixpoint count_columns (q t : list ascii) (c : Counts) : Counts :=
  match q, t with
  | qc :: q', tc :: t' =>
      count_columns q' t'
        (if decide (tc = "-"%char) then
           mkCounts (matches c) (mismatches c) (insertions c + 1) (deletions c)
         else if decide (qc = "-"%char) then
           mkCounts (matches c) (mismatches c) (insertions c) (deletions c + 1)
         else if decide (qc = tc) then
           mkCounts (matches c + 1) (mismatches c) (insertions c) (deletions c)
         else
           mkCounts (matches c) (mismatches c + 1) (insertions c) (deletions c))
  | _, _ => c
  end.

(** Modelled from the spec: percent identity (§4.4 and glossary): matches
    divided by matches + mismatches + insertions + deletions, as a
    percentage. *)
Definition percent_identity (c : Counts) : Q :=
  (inject_Z (100 * matches c) / inject_Z (columns c))%Q.

(** A score function rates one column. *)
Definition ScoreFn : Type := ascii → ascii → Z.

Fixpoint score_columns (scoreFn : ScoreFn) (q t : list ascii) : Z :=
  match q, t with
  | qc :: q', tc :: t' => scoreFn qc tc + score_columns scoreFn q' t'
  | _, _ => 0
  end.

(** Modelled from the spec: [ComputeAlignmentStats] is the statistics
    engine of the alignment library (§4.4).  It derives the six
    statistics of §3 from the aligned pair and stores them in the
    candidate; nothing else is set. *)
Definition ComputeAlignmentStats (alignment : AlignmentCandidate.t)
    (qSeq tSeq : string) (scoreFn : ScoreFn) : AlignmentCandidate.t :=
  let q := String.list_ascii_of_string qSeq in
  let t := String.list_ascii_of_string tSeq in
  let c := count_columns q t (mkCounts 0 0 0 0) in
  {| AlignmentCandidate.qName := AlignmentCandidate.qName alignment;
     AlignmentCandidate.tName := AlignmentCandidate.tName alignment;
     AlignmentCandidate.qStrand := AlignmentCandidate.qStrand alignment;
     AlignmentCandidate.tStrand := AlignmentCandidate.tStrand alignment;
     AlignmentCandidate.qPos := AlignmentCandidate.qPos alignment;
     AlignmentCandidate.tPos := AlignmentCandidate.tPos alignment;
     AlignmentCandidate.qLength := AlignmentCandidate.qLength alignment;
     AlignmentCandidate.tLength := AlignmentCandidate.tLength alignment;
     AlignmentCandidate.qAlignedSeq :=
       AlignmentCandidate.qAlignedSeq alignment;
     AlignmentCandidate.tAlignedSeq :=
       AlignmentCandidate.tAlignedSeq alignment;
     AlignmentCandidate.nMatch := matches c;
     AlignmentCandidate.nMismatch := mismatches c;
     AlignmentCandidate.nIns := insertions c;
     AlignmentCandidate.nDel := deletions c;
     AlignmentCandidate.score := score_columns scoreFn q t;
     AlignmentCandidate.pctSimilarity := percent_identity c;
     AlignmentCandidate.mapQV := AlignmentCandidate.mapQV alignment |}.

(** The placeholder score function of line 148: edit distance. *)
Definition distScoreFn : ScoreFn :=
  λ q t, if decide (q = t) then 0%Z else 1%Z.

(** [main] run on the services above. *)
Definition main : bool → bool → list FASTASequence.t →
    list SAMFullReferenceSequence.t → list SAMAlignment.t → Run :=
  main RearrangeReferences SAMAlignmentsToCandidates ComputeAlignmentStats
    distScoreFn.

End Model.

(** ** Test doubles and sample inputs *)

(** §9 asks for the two delegated algorithms to sit behind narrow
    interfaces so that the core "can be tested against fakes".  These are
    two such fakes of the candidate builder. *)
Module Fake.

Definition candidate (sam : SAMAlignment.t) : AlignmentCandidate.t :=
  {| AlignmentCandidate.qName := SAMAlignment.qName sam;
     AlignmentCandidate.tName := SAMAlignment.rName sam;
     AlignmentCandidate.qStrand := Forward;
     AlignmentCandidate.tStrand := Forward;
     AlignmentCandidate.qPos := 0;
     AlignmentCandidate.tPos := 0;
     AlignmentCandidate.qLength := 0;
     AlignmentCandidate.tLength := 0;
     AlignmentCandidate.qAlignedSeq := "";
     AlignmentCandidate.tAlignedSeq := "";
     AlignmentCandidate.nMatch := 0;
     AlignmentCandidate.nMismatch := 0;
     AlignmentCandidate.nIns := 0;
     AlignmentCandidate.nDel := 0;
     AlignmentCandidate.score := 0;
     AlignmentCandidate.pctSimilarity := 0%Q;
     AlignmentCandidate.mapQV := 0 |}.

(** A builder that decodes every record into two segments. *)
Definition two_segments (sam : SAMAlignment.t)
    (references : list FASTASequence.t) (refNameToIndex : gmap string Z)
    (parseSmrtTitle keepRefAsForward : bool) : BuildResult :=
  Candidates [candidate sam; candidate sam].

(** A builder that finds no candidate in any record. *)
Definition no_candidates (sam : SAMAlignment.t)
    (references : list FASTASequence.t) (refNameToIndex : gmap string Z)
    (parseSmrtTitle keepRefAsForward : bool) : BuildResult :=
  Candidates [].

(** A builder that gives up on every record whose CIGAR string has a 'P'
    and builds like [Model.SAMAlignmentsToCandidates] otherwise. *)
Definition refuses_padding (sam : SAMAlignment.t)
    (references : list FASTASequence.t) (refNameToIndex : gmap string Z)
    (parseSmrtTitle keepRefAsForward : bool) : BuildResult :=
  if decide (is_Some (string_find "P"%char (SAMAlignment.cigar sam)))
  then BuildFailure
  else Model.SAMAlignmentsToCandidates sam references refNameToIndex
         parseSmrtTitle keepRefAsForward.

End Fake.

Module Sample.

Definition references : list FASTASequence.t :=
  [ FASTASequence.mk "chrA first chromosome" "ACGTACGTAC";
    FASTASequence.mk "chrB second chromosome" "TTTTGGGGCC" ].

Definition header : list SAMFullReferenceSequence.t :=
  [ SAMFullReferenceSequence.mk "chrA" 10;
    SAMFullReferenceSequence.mk "chrB" 10 ].

(** The catalogue of the fatal-path scenario of §8: three sequences
    against a header of two. *)
Definition three_references : list FASTASequence.t :=
  references ++ [ FASTASequence.mk "chrC third chromosome" "GATTACA" ].

(** The header of the duplicate-short-name scenario of §8. *)
Definition duplicate_header : list SAMFullReferenceSequence.t :=
  [ SAMFullReferenceSequence.mk "chrA" 10;
    SAMFullReferenceSequence.mk "chrA" 10 ].

(** A record aligned to the reverse strand (flag 0x10), with clipping, an
    insertion and a deletion. *)
Definition reversed : SAMAlignment.t :=
  SAMAlignment.mk "read1" 16 "chrA" 2 254 "2S3M1I2M1D1M" "GGCGTTACG" (-35) 0.

Definition unmapped : SAMAlignment.t :=
  SAMAlignment.mk "read2" 4 "*" 0 0 "*" "ACGT" 0 0.

(** The skip scenario of §8. *)
Definition padded : SAMAlignment.t :=
  SAMAlignment.mk "read3" 0 "chrB" 1 10 "10M2P5M" "ACGT" 0 0.

(** A perfect forward match that carries its original length. *)
Definition perfect : SAMAlignment.t :=
  SAMAlignment.mk "read4" 0 "chrB" 1 10 "4M" "TTTT" (-20) 1200.

(** A padded record whose reference is in neither header nor catalogue. *)
Definition padded_stranger : SAMAlignment.t :=
  SAMAlignment.mk "read5" 0 "chrZ" 1 10 "10M2P5M" "ACGT" 0 0.


Definition records : list SAMAlignment.t :=
  [reversed; unmapped; padded; perfect].


(** The row [main] writes for [perfect] when full names are in use. *)
Definition perfect_row : AlignmentCandidate.t :=
  {| AlignmentCandidate.qName := "read4";
     AlignmentCandidate.tName := "chrB second chromosome";
     AlignmentCandidate.qStrand := Forward;
     AlignmentCandidate.tStrand := Forward;
     AlignmentCandidate.qPos := 0;
     AlignmentCandidate.tPos := 0;
     AlignmentCandidate.qLength := 1200;
     AlignmentCandidate.tLength := 10;
     AlignmentCandidate.qAlignedSeq := "TTTT";
     AlignmentCandidate.tAlignedSeq := "TTTT";
     AlignmentCandidate.nMatch := 4;
     AlignmentCandidate.nMismatch := 0;
     AlignmentCandidate.nIns := 0;
     AlignmentCandidate.nDel := 0;
     AlignmentCandidate.score := -20;
     AlignmentCandidate.pctSimilarity := (400 # 4)%Q;
     AlignmentCandidate.mapQV := 10 |}.

(** The catalogue state [main] builds from [references] and [header]
    when full names are in use. *)
Definition cat : Catalog :=
  {| shortRefNameToFull :=
       <["chrB" := "chrB second chromosome"]>
         (<["chrA" := "chrA first chromosome"]> ∅);
     alignmentSet_references :=
       [ SAMFullReferenceSequence.mk "chrA first chromosome" 10;
         SAMFullReferenceSequence.mk "chrB second chromosome" 10 ];
     refNameToIndex :=
       <["chrB second chromosome" := 1%Z]>
         (<["chrA first chromosome" := 0%Z]> ∅) |}.

End Sample.

(** ** Reading a trace *)

(** The rows of a trace, in the order they were written. *)
Definition rows (out : list Event) : list AlignmentCandidate.t :=
  omap (λ e, match e with PrintFromSAM a => Some a | _ => None end) out.

(** * Properties *)

(** ** What the services are expected to do *)

(** §4.1: rearranging reorders the header's descriptors. *)
Definition reorders
    (RearrangeReferences : list FASTASequence.t →
       list SAMFullReferenceSequence.t → list SAMFullReferenceSequence.t)
    : Prop :=
  ∀ references header, RearrangeReferences references header ≡ₚ header.

(** §4.4 and §3: the statistics engine sets the statistics of a candidate
    and leaves its query length alone. *)
Definition keeps_qLength {T_ScoreFn : Type}
    (ComputeAlignmentStats : AlignmentCandidate.t → string → string →
       T_ScoreFn → AlignmentCandidate.t) : Prop :=
  ∀ alignment qSeq tSeq scoreFn,
    AlignmentCandidate.qLength
      (ComputeAlignmentStats alignment qSeq tSeq scoreFn)
    = AlignmentCandidate.qLength alignment.

(** Likewise for the name of the target. *)
Definition keeps_tName {T_ScoreFn : Type}
    (ComputeAlignmentStats : AlignmentCandidate.t → string → string →
       T_ScoreFn → AlignmentCandidate.t) : Prop :=
  ∀ alignment qSeq tSeq scoreFn,
    AlignmentCandidate.tName
      (ComputeAlignmentStats alignment qSeq tSeq scoreFn)
    = AlignmentCandidate.tName alignment.

(** The candidate builder names the target of every candidate after the
    reference name of the record it was given. *)
Definition names_target_after_record
    (SAMAlignmentsToCandidates : SAMAlignment.t → list FASTASequence.t →
       gmap string Z → bool → bool → BuildResult) : Prop :=
  ∀ sam references refNameToIndex parseSmrtTitle keepRefAsForward
    convertedAlignments alignment,
    SAMAlignmentsToCandidates sam references refNameToIndex parseSmrtTitle
      keepRefAsForward = Candidates convertedAlignments →
    alignment ∈ convertedAlignments →
    AlignmentCandidate.tName alignment = SAMAlignment.rName sam.


(** No count of the column walk is negative. *)
Definition sane (c : Model.Counts) : Prop :=
  (0 ≤ Model.matches c ∧ 0 ≤ Model.mismatches c ∧
   0 ≤ Model.insertions c ∧ 0 ≤ Model.deletions c)%Z.

Section Facts.

Context {T_ScoreFn : Type}.
Variable RearrangeReferences :
  list FASTASequence.t → list SAMFullReferenceSequence.t →
  list SAMFullReferenceSequence.t.
Variable SAMAlignmentsToCandidates :
  SAMAlignment.t → list FASTASequence.t → gmap string Z → bool → bool →
  BuildResult.
Variable ComputeAlignmentStats :
  AlignmentCandidate.t → string → string → T_ScoreFn → AlignmentCandidate.t.
Variable distScoreFn : T_ScoreFn.

Local Abbreviation body :=
  (loop_body SAMAlignmentsToCandidates ComputeAlignmentStats distScoreFn).
Local Abbreviation loop :=
  (while_loop SAMAlignmentsToCandidates ComputeAlignmentStats distScoreFn).
Local Abbreviation body_is :=
  (body_case SAMAlignmentsToCandidates ComputeAlignmentStats distScoreFn).
Local Abbreviation run :=
  (main RearrangeReferences SAMAlignmentsToCandidates ComputeAlignmentStats
     distScoreFn).

(** *** The monad *)

Lemma bind_pure {A B : Type} (a : A) (f : A → M B) :
  (([], inl a) : M A) ≫= f = f a.
Proof. unfold mbind, M_bind. by destruct (f a). Qed.

Lemma bind_halted {A B : Type} out st (f : A → M B) :
  ((out, inr st) : M A) ≫= f = (out, inr st).
Proof. done. Qed.

(** *** The name lookup *)

Lemma resolve_name_cases useShortRefName names sam :
  (useShortRefName = true ∧
   resolve_name useShortRefName names sam = ([], inl sam)) ∨
  (∃ full, useShortRefName = false ∧
     names !! SAMAlignment.rName sam = Some full ∧
     resolve_name useShortRefName names sam
       = ([], inl (SAMAlignment.set_rName full sam))) ∨
  (useShortRefName = false ∧ names !! SAMAlignment.rName sam = None ∧
   resolve_name useShortRefName names sam
     = ([Cout ("ERROR, Could not find " +:+ SAMAlignment.rName sam
               +:+ " in the reference repository.")], inr ExitFailure)).
Proof.
  unfold resolve_name. destruct useShortRefName; simpl.
  - by left.
  - destruct (names !! SAMAlignment.rName sam) as [full|] eqn:E.
    + right; left. by exists full.
    + by right; right.
Qed.

(** Resolving a name touches nothing but the name. *)
Lemma resolve_name_keeps useShortRefName names sam sam' :
  resolve_name useShortRefName names sam = ([], inl sam') →
  SAMAlignment.cigar sam' = SAMAlignment.cigar sam ∧
  SAMAlignment.flag sam' = SAMAlignment.flag sam ∧
  SAMAlignment.as_ sam' = SAMAlignment.as_ sam ∧
  SAMAlignment.mapQV sam' = SAMAlignment.mapQV sam ∧
  SAMAlignment.xq sam' = SAMAlignment.xq sam.
Proof.
  destruct (resolve_name_cases useShortRefName names sam)
    as [[_ ->]|[(full & _ & _ & ->)|(_ & _ & ->)]];
    intros [= <-]; done.
Qed.

(** *** Reconciliation *)

Lemma reconcile_score sam alignment :
  AlignmentCandidate.score (reconcile sam alignment) = SAMAlignment.as_ sam.
Proof. unfold reconcile. by destruct (decide _). Qed.

Lemma reconcile_mapQV sam alignment :
  AlignmentCandidate.mapQV (reconcile sam alignment)
  = SAMAlignment.mapQV sam.
Proof. unfold reconcile. by destruct (decide _). Qed.

(** The query length is replaced by a non-zero [xq] and is untouched
    otherwise. *)
Lemma reconcile_qLength sam alignment :
  AlignmentCandidate.qLength (reconcile sam alignment)
  = if decide (SAMAlignment.xq sam = 0%Z)
    then AlignmentCandidate.qLength alignment
    else SAMAlignment.xq sam.
Proof. unfold reconcile. by repeat destruct (decide _). Qed.

(** Nothing else changes. *)
Lemma reconcile_frame sam alignment :
  let alignment' := reconcile sam alignment in
  AlignmentCandidate.qName alignment' = AlignmentCandidate.qName alignment ∧
  AlignmentCandidate.tName alignment' = AlignmentCandidate.tName alignment ∧
  AlignmentCandidate.qStrand alignment'
    = AlignmentCandidate.qStrand alignment ∧
  AlignmentCandidate.tStrand alignment'
    = AlignmentCandidate.tStrand alignment ∧
  AlignmentCandidate.qAlignedSeq alignment'
    = AlignmentCandidate.qAlignedSeq alignment ∧
  AlignmentCandidate.tAlignedSeq alignment'
    = AlignmentCandidate.tAlignedSeq alignment ∧
  AlignmentCandidate.pctSimilarity alignment'
    = AlignmentCandidate.pctSimilarity alignment.
Proof. unfold reconcile. by destruct (decide _). Qed.

(** *** The loop body *)

Lemma loop_body_case useShortRefName references cat sam :
  body_is useShortRefName references cat sam
    (body useShortRefName references cat sam).
Proof.
  unfold loop_body.
  destruct (decide (SAMAlignment.rName sam = "*")) as [Hu|Hu];
    first by constructor.
  destruct (resolve_name_cases useShortRefName (shortRefNameToFull cat) sam)
    as [[Hs Hr]|[(full & Hs & Hl & Hr)|(Hs & Hl & Hr)]];
    rewrite Hr, ?bind_pure; last by constructor.
  all: match type of Hr with _ = (_, inl ?s) => set (sam' := s) in * end.
  all: destruct (decide (is_Some (string_find "P"%char
                   (SAMAlignment.cigar sam')))) as [HP|HP];
    first (by eapply case_padded).
  all: apply eq_None_not_Some in HP.
  all: destruct (SAMAlignmentsToCandidates sam' references
                   (refNameToIndex cat) parseSmrtTitle keepRefAsForward)
         as [cs|] eqn:HB; last (by eapply case_build_failure).
  all: destruct (decide (1 < length cs)) as [Hn|Hn];
    first (by eapply case_multi_segment).
  all: destruct cs as [|c [|c' cs]]; simpl in Hn; try lia; simpl.
  all: first [ by eapply case_no_candidate | by eapply case_emitted ].
Qed.

Lemma body_status_not_returned useShortRefName references cat sam out st :
  body useShortRefName references cat sam = (out, inr st) → st ≠ Returned.
Proof.
  intros E. pose proof (loop_body_case useShortRefName references cat sam) as C.
  rewrite E in C. inversion C; done.
Qed.

(** A pass that writes a row went all the way through the body. *)
Lemma body_emitted_inv useShortRefName references cat sam a :
  body useShortRefName references cat sam = ([PrintFromSAM a], inl tt) →
  ∃ sam' candidate,
    SAMAlignment.rName sam ≠ "*" ∧
    resolve_name useShortRefName (shortRefNameToFull cat) sam
      = ([], inl sam') ∧
    string_find "P"%char (SAMAlignment.cigar sam') = None ∧
    SAMAlignmentsToCandidates sam' references (refNameToIndex cat)
      parseSmrtTitle keepRefAsForward = Candidates [candidate] ∧
    a = reconcile sam'
          (ComputeAlignmentStats candidate
             (AlignmentCandidate.qAlignedSeq candidate)
             (AlignmentCandidate.tAlignedSeq candidate) distScoreFn).
Proof.
  intros E. pose proof (loop_body_case useShortRefName references cat sam) as C.
  rewrite E in C. inversion C; subst. by exists sam', candidate.
Qed.

(** *** The record loop *)

Lemma after_nil r : after [] r = r.
Proof. by destruct r. Qed.

Lemma after_after out out' r : after out (after out' r) = after (out ++ out') r.
Proof. unfold after; simpl. by rewrite app_assoc. Qed.

Lemma loop_cons_next useShortRefName references cat sam rest out u :
  body useShortRefName references cat sam = (out, inl u) →
  loop useShortRefName references cat (sam :: rest)
    = after out (loop useShortRefName references cat rest).
Proof. intros E. simpl. by rewrite E. Qed.

Lemma loop_cons_halt useShortRefName references cat sam rest out st :
  body useShortRefName references cat sam = (out, inr st) →
  loop useShortRefName references cat (sam :: rest)
    = {| trace := out; status := st; unread := rest |}.
Proof. intros E. simpl. by rewrite E. Qed.

(** A prefix that the loop gets through leaves the rest to be run. *)
Lemma loop_app useShortRefName references cat pre rest :
  status (loop useShortRefName references cat pre) = Returned →
  loop useShortRefName references cat (pre ++ rest)
    = after (trace (loop useShortRefName references cat pre))
        (loop useShortRefName references cat rest).
Proof.
  induction pre as [|sam pre IH]; intros Hst.
  - simpl. by rewrite after_nil.
  - destruct (body useShortRefName references cat sam) as [out [u|st]] eqn:E.
    + rewrite (loop_cons_next _ _ _ _ _ _ _ E) in Hst |- *.
      rewrite <- app_comm_cons, (loop_cons_next _ _ _ _ _ _ _ E).
      rewrite IH by done. by rewrite after_after.
    + rewrite (loop_cons_halt _ _ _ _ _ _ _ E) in Hst. simpl in Hst.
      by apply body_status_not_returned in E.
Qed.

(** Every row in the trace of the loop is the whole output of the body on
    one of the records. *)
Lemma loop_emitted useShortRefName references cat records a :
  PrintFromSAM a ∈ trace (loop useShortRefName references cat records) →
  ∃ sam, sam ∈ records ∧
    body useShortRefName references cat sam = ([PrintFromSAM a], inl tt).
Proof.
  induction records as [|sam records IH]; simpl.
  - by intros ?%elem_of_nil.
  - pose proof (loop_body_case useShortRefName references cat sam) as C.
    destruct (body useShortRefName references cat sam) as [out [[]|st]] eqn:E;
      simpl; intros Hin.
    + apply elem_of_app in Hin as [Hin|Hin].
      * exists sam. split; first by left.
        inversion C; subst;
          first [ by apply elem_of_nil in Hin
                | by apply list_elem_of_singleton in Hin as [= ->]
                | by apply list_elem_of_singleton in Hin ].
      * destruct (IH Hin) as (sam0 & ? & ?). exists sam0. split; [by right|done].
    + inversion C; subst;
        first [ by apply elem_of_nil in Hin
              | by apply list_elem_of_singleton in Hin ].
Qed.

(** *** Before the loop *)

Lemma bind_names_cases i todo names refs :
  (∃ names' refs', bind_names i todo names refs = ([], inl (names', refs'))) ∨
  (∃ n, bind_names i todo names refs
        = ([Cout ("ERROR, Found more than one reference " +:+ n
                  +:+ "in sam header")], inr ExitFailure)) ∨
  bind_names i todo names refs = ([], inr OutOfBounds).
Proof.
  revert i names refs.
  induction todo as [|reference todo IH]; intros i names refs; simpl.
  - left; eauto.
  - destruct (refs !! i) as [r|]; last by right; right.
    destruct (decide _).
    + right; left. by eexists.
    + apply IH.
Qed.

(** The loop of lines 111-121 stops at the first name it has bound
    before. *)
Lemma bind_names_duplicate todo : ∀ i names refs,
  length (drop i refs) = length todo →
  ¬ NoDup (SAMFullReferenceSequence.GetSequenceName <$> drop i refs) ∨
    (∃ n, n ∈ SAMFullReferenceSequence.GetSequenceName <$> drop i refs ∧
          is_Some (names !! n)) →
  ∃ n, n ∈ SAMFullReferenceSequence.GetSequenceName <$> drop i refs ∧
    bind_names i todo names refs
      = ([Cout ("ERROR, Found more than one reference " +:+ n
                +:+ "in sam header")], inr ExitFailure).
Proof.
  induction todo as [|reference todo IH]; intros i names refs Hlen Hdup.
  - apply nil_length_inv in Hlen. rewrite Hlen in Hdup. simpl in Hdup.
    destruct Hdup as [Hdup|(n & Hn & _)].
    + destruct Hdup. constructor.
    + by apply elem_of_nil in Hn.
  - destruct (refs !! i) as [r|] eqn:Hr.
    2:{ apply lookup_ge_None in Hr. rewrite length_drop in Hlen.
        simpl in Hlen. lia. }
    rewrite (drop_S _ _ _ Hr) in Hlen, Hdup |- *. simpl in Hlen.
    simpl. rewrite Hr.
    destruct (decide _) as [Hbound|Hfree].
    + exists (SAMFullReferenceSequence.GetSequenceName r).
      split; [by left|done].
    + set (names' := <[SAMFullReferenceSequence.GetSequenceName r :=
                        FASTASequence.title reference]> names).
      set (refs' := <[i := SAMFullReferenceSequence.set_sequenceName
                             (FASTASequence.title reference) r]> refs).
      assert (drop (S i) refs' = drop (S i) refs) as Hdrop
        by (apply drop_insert_lt; lia).
      destruct (IH (S i) names' refs') as (n & Hn & ->).
      * rewrite Hdrop. lia.
      * rewrite Hdrop. rewrite fmap_cons in Hdup.
        destruct Hdup as [Hdup|(n & Hn & Hsome)].
        -- rewrite NoDup_cons in Hdup.
           destruct (decide (SAMFullReferenceSequence.GetSequenceName r
               ∈ SAMFullReferenceSequence.GetSequenceName <$> drop (S i) refs))
             as [Hin|Hnotin].
           ++ right. eexists. split; first exact Hin.
              unfold names'. rewrite lookup_insert_eq. by eexists.
           ++ left. tauto.
        -- right. exists n. apply elem_of_cons in Hn as [->|Hn];
             first done.
           split; first done. unfold names'.
           apply lookup_insert_is_Some. destruct (decide
             (SAMFullReferenceSequence.GetSequenceName r = n)); auto.
      * exists n. rewrite Hdrop in Hn. split; [by right|done].
Qed.

Lemma index_names_cases i todo index refs :
  (∃ index', index_names i todo index refs = ([], inl index')) ∨
  index_names i todo index refs = ([], inr OutOfBounds).
Proof.
  revert i index. induction todo as [|reference todo IH]; intros i index;
    simpl.
  - left; eauto.
  - destruct (refs !! i) as [r|]; last by right. apply IH.
Qed.

Lemma setup_cases useShortRefName references header :
  (length references ≠ length (RearrangeReferences references header) ∧
   setup RearrangeReferences useShortRefName references header
     = ([], inr AssertionFailed)) ∨
  (length references = length (RearrangeReferences references header) ∧
   ((∃ cat, setup RearrangeReferences useShortRefName references header
            = ([], inl cat)) ∨
    (useShortRefName = false ∧
     ∃ n, setup RearrangeReferences useShortRefName references header
          = ([Cout ("ERROR, Found more than one reference " +:+ n
                    +:+ "in sam header")], inr ExitFailure)) ∨
    setup RearrangeReferences useShortRefName references header
      = ([], inr OutOfBounds))).
Proof.
  unfold setup, assert. case_bool_decide as Hlen; last by left.
  right. split; first done. unfold mret, M_ret. rewrite bind_pure.
  destruct useShortRefName; simpl negb; cbv iota.
  - rewrite bind_pure.
    destruct (index_names_cases 0 references ∅
                (RearrangeReferences references header)) as [[index ->]| ->].
    + left. rewrite bind_pure. by eexists.
    + by right; right.
  - destruct (bind_names_cases 0 references ∅
                (RearrangeReferences references header))
      as [(names & refs & ->)|[(n & ->)| ->]].
    + rewrite bind_pure.
      destruct (index_names_cases 0 references ∅ refs) as [[index ->]| ->].
      * left. rewrite bind_pure. by eexists.
      * by right; right.
    + right; left. split; first done. by exists n.
    + by right; right.
Qed.

(** When the setup succeeds it has written nothing. *)
Lemma setup_quiet useShortRefName references header out cat :
  setup RearrangeReferences useShortRefName references header
    = (out, inl cat) → out = [].
Proof.
  destruct (setup_cases useShortRefName references header)
    as [[_ ->]|[_ [[cat' ->]|[[_ [n ->]]| ->]]]]; by intros [= <-].
Qed.

(** The run is the setup followed by the loop. *)
Lemma main_ready printHeader useShortRefName references header records cat :
  setup RearrangeReferences useShortRefName references header
    = ([], inl cat) →
  run printHeader useShortRefName references header records
    = after (if printHeader then [PrintHeader] else [])
        (loop useShortRefName references cat records).
Proof. intros E. unfold main. by rewrite E. Qed.

(** Every row in the trace of a run is what the loop body wrote for one
    of the records, under the catalogue the setup built. *)
Lemma main_emitted printHeader useShortRefName references header records a :
  PrintFromSAM a
    ∈ trace (run printHeader useShortRefName references header records) →
  ∃ cat sam,
    setup RearrangeReferences useShortRefName references header
      = ([], inl cat) ∧
    sam ∈ records ∧
    body useShortRefName references cat sam = ([PrintFromSAM a], inl tt).
Proof.
  unfold main.
  destruct (setup_cases useShortRefName references header)
    as [[_ E]|[_ [[cat E]|[[_ [n E]]|E]]]]; rewrite E; simpl.
  - by intros ?%elem_of_nil.
  - intros Hin. exists cat.
    destruct printHeader; simpl in Hin.
    + apply elem_of_cons in Hin as [?|Hin]; first done.
      apply loop_emitted in Hin as (sam & ? & ?). by exists sam.
    + apply loop_emitted in Hin as (sam & ? & ?). by exists sam.
  - by intros ?%list_elem_of_singleton.
  - by intros ?%elem_of_nil.
Qed.

(** *** Rows and their records *)

(** C5: every row written carries the alignment score and the mapping
    quality of the source record it was made from, whatever the
    statistics engine computed for it. *)
Theorem score_and_mapQV_pass_through
    printHeader useShortRefName references header records a :
  PrintFromSAM a
    ∈ trace (run printHeader useShortRefName references header records) →
  ∃ cat sam,
    setup RearrangeReferences useShortRefName references header
      = ([], inl cat) ∧
    sam ∈ records ∧
    body useShortRefName references cat sam = ([PrintFromSAM a], inl tt) ∧
    AlignmentCandidate.score a = SAMAlignment.as_ sam ∧
    AlignmentCandidate.mapQV a = SAMAlignment.mapQV sam.
Proof.
  intros (cat & sam & Hsetup & Hsam & Hbody)%main_emitted.
  exists cat, sam. repeat (split; first done).
  destruct (body_emitted_inv _ _ _ _ _ Hbody)
    as (sam' & c & _ & Hres & _ & _ & ->).
  apply resolve_name_keeps in Hres as (_ & _ & Has & Hqv & _).
  by rewrite reconcile_score, reconcile_mapQV, Has, Hqv.
Qed.

(** C6: every row written is what the loop body wrote for one source
    record, out of the one candidate decoded from that record; its query
    length is the original full length [xq] of that record when that is
    non-zero, and otherwise the query length of that candidate, decoded
    from the record's CIGAR string. *)
Theorem qLength_from_xq_or_cigar
    printHeader useShortRefName references header records a :
  keeps_qLength ComputeAlignmentStats →
  PrintFromSAM a
    ∈ trace (run printHeader useShortRefName references header records) →
  ∃ cat sam sam' candidate,
    setup RearrangeReferences useShortRefName references header
      = ([], inl cat) ∧
    sam ∈ records ∧
    body useShortRefName references cat sam = ([PrintFromSAM a], inl tt) ∧
    resolve_name useShortRefName (shortRefNameToFull cat) sam
      = ([], inl sam') ∧
    SAMAlignmentsToCandidates sam' references (refNameToIndex cat)
      parseSmrtTitle keepRefAsForward = Candidates [candidate] ∧
    a = reconcile sam'
          (ComputeAlignmentStats candidate
             (AlignmentCandidate.qAlignedSeq candidate)
             (AlignmentCandidate.tAlignedSeq candidate) distScoreFn) ∧
    AlignmentCandidate.qLength a
      = if decide (SAMAlignment.xq sam = 0%Z)
        then AlignmentCandidate.qLength candidate
        else SAMAlignment.xq sam.
Proof.
  intros Hkeeps (cat & sam & Hsetup & Hsam & Hbody)%main_emitted.
  destruct (body_emitted_inv _ _ _ _ _ Hbody)
    as (sam' & c & _ & Hres & _ & Hbuild & Ha).
  exists cat, sam, sam', c. repeat (split; first done).
  apply resolve_name_keeps in Hres as (_ & _ & _ & _ & Hxq).
  by rewrite Ha, reconcile_qLength, Hkeeps, Hxq.
Qed.

(** *** Fatal configurations *)

(** C2: when the catalogue and the header differ in their number of
    references, the run is aborted by the assertion of line 109: nothing
    has been written and no record has been read. *)
Theorem reference_count_mismatch_aborts
    printHeader useShortRefName references header records :
  reorders RearrangeReferences →
  length references ≠ length header →
  run printHeader useShortRefName references header records
    = {| trace := []; status := AssertionFailed; unread := records |}.
Proof.
  intros Hperm Hlen. unfold main.
  destruct (setup_cases useShortRefName references header)
    as [[_ ->]|[Heq _]]; first done.
  by rewrite (Permutation_length (Hperm references header)) in Heq.
Qed.

(** C3: with full names in use, two header references of the same short
    name end the run with failure status while the name map is built:
    only the error message has been written and no record has been
    read. *)
Theorem duplicate_short_name_is_fatal
    printHeader references header records :
  reorders RearrangeReferences →
  length references = length header →
  ¬ NoDup (SAMFullReferenceSequence.GetSequenceName <$> header) →
  ∃ n, n ∈ SAMFullReferenceSequence.GetSequenceName <$> header ∧
    run printHeader false references header records
      = {| trace := [Cout ("ERROR, Found more than one reference " +:+ n
                           +:+ "in sam header")];
           status := ExitFailure; unread := records |}.
Proof.
  intros Hperm Hlen Hdup.
  pose proof (Hperm references header) as Hp.
  destruct (bind_names_duplicate references 0 ∅
              (RearrangeReferences references header)) as (n & Hn & E).
  - by rewrite drop_0, (Permutation_length Hp).
  - left. by rewrite drop_0, Hp.
  - exists n. rewrite drop_0, Hp in Hn. split; first done.
    unfold main, setup, assert.
    rewrite bool_decide_eq_true_2
      by by rewrite (Permutation_length Hp).
    unfold mret, M_ret. rewrite bind_pure. simpl negb. cbv iota.
    by rewrite E.
Qed.

(** *** Records that are not converted *)

(** C4: as the program has it, an unmapped record is passed over without
    a word; a record that is mapped, whose name resolves and whose CIGAR
    string has a 'P' costs one warning; so does a record that decodes
    into more than one segment.  In each case no row is written and the
    loop goes on with the next record. *)
Theorem skipped_records useShortRefName references cat sam rest :
  (SAMAlignment.rName sam = "*" →
   loop useShortRefName references cat (sam :: rest)
     = loop useShortRefName references cat rest) ∧
  (SAMAlignment.rName sam ≠ "*" →
   useShortRefName = true
     ∨ is_Some (shortRefNameToFull cat !! SAMAlignment.rName sam) →
   is_Some (string_find "P"%char (SAMAlignment.cigar sam)) →
   loop useShortRefName references cat (sam :: rest)
     = after
         [Cout "WARNING. Could not process sam record with 'P' in its cigar string."]
         (loop useShortRefName references cat rest)) ∧
  (∀ sam' convertedAlignments,
     SAMAlignment.rName sam ≠ "*" →
     resolve_name useShortRefName (shortRefNameToFull cat) sam
       = ([], inl sam') →
     string_find "P"%char (SAMAlignment.cigar sam) = None →
     SAMAlignmentsToCandidates sam' references (refNameToIndex cat)
       parseSmrtTitle keepRefAsForward = Candidates convertedAlignments →
     1 < length convertedAlignments →
     loop useShortRefName references cat (sam :: rest)
       = after
           [Cout "WARNING. Ignore an alignment which has multiple segments."]
           (loop useShortRefName references cat rest)).
Proof.
  pose proof (loop_body_case useShortRefName references cat sam) as C.
  split; [|split].
  - intros Hu. inversion C as [_ E| | | | | |]; try done.
    symmetry in E. rewrite (loop_cons_next _ _ _ _ _ _ _ E).
    apply after_nil.
  - intros Hu Hres HP.
    assert (∃ sam', resolve_name useShortRefName (shortRefNameToFull cat) sam
                    = ([], inl sam')) as [sam' Hr].
    { destruct (resolve_name_cases useShortRefName (shortRefNameToFull cat)
                  sam) as [[_ ?]|[(? & _ & _ & ?)|(-> & Hnone & _)]];
        [by eexists..|].
      destruct Hres as [?|[? ?]]; congruence. }
    assert (SAMAlignment.cigar sam' = SAMAlignment.cigar sam) as Hc
      by by apply resolve_name_keeps in Hr as (? & _).
    simpl. unfold loop_body.
    destruct (decide (SAMAlignment.rName sam = "*")); first done.
    rewrite Hr, bind_pure, Hc.
    by destruct (decide (is_Some _)).
  - intros sam' cs Hu Hr HP Hbuild Hlen.
    assert (SAMAlignment.cigar sam' = SAMAlignment.cigar sam) as Hc
      by by apply resolve_name_keeps in Hr as (? & _).
    simpl. unfold loop_body.
    destruct (decide (SAMAlignment.rName sam = "*")); first done.
    rewrite Hr, bind_pure, Hc.
    destruct (decide (is_Some _)) as [[? HP']|_]; first congruence.
    rewrite Hbuild. by destruct (decide (1 < length cs)).
Qed.

(** C7: with full names in use, a mapped record whose reference name has
    no entry in the name map ends the run with failure status and an
    error message as soon as the loop reaches it. *)
Theorem unresolved_reference_is_fatal
    printHeader references header cat pre sam rest :
  setup RearrangeReferences false references header = ([], inl cat) →
  status (run printHeader false references header pre) = Returned →
  SAMAlignment.rName sam ≠ "*" →
  shortRefNameToFull cat !! SAMAlignment.rName sam = None →
  run printHeader false references header (pre ++ sam :: rest)
    = {| trace :=
           trace (run printHeader false references header pre)
           ++ [Cout ("ERROR, Could not find " +:+ SAMAlignment.rName sam
                     +:+ " in the reference repository.")];
         status := ExitFailure; unread := rest |}.
Proof.
  intros Hsetup Hpre Hu Hnone.
  rewrite (main_ready printHeader _ _ _ pre _ Hsetup) in Hpre |- *.
  rewrite (main_ready printHeader _ _ _ (pre ++ sam :: rest) _ Hsetup).
  simpl in Hpre.
  rewrite loop_app by done.
  pose proof (loop_body_case false references cat sam) as C.
  inversion C as [|_ _ _ E|sam' _ Hr|sam' _ Hr|sam' cs _ Hr|sam' _ Hr
                  |sam' c _ Hr]; try done.
  2-6: destruct (resolve_name_cases false (shortRefNameToFull cat) sam)
         as [[? _]|[(? & _ & ? & _)|(_ & _ & Hr')]]; congruence.
  symmetry in E. rewrite (loop_cons_halt _ _ _ _ _ _ _ E).
  unfold after; simpl. by rewrite app_assoc.
Qed.

(** C10: the loop reads [convertedAlignments[0]] after having checked
    only that the vector has no more than one element.  A record that
    gets that far and for which the builder returns no candidate makes
    the run read past the end of an empty vector. *)
Theorem empty_conversion_reads_out_of_bounds
    printHeader useShortRefName references header cat pre sam sam' rest :
  setup RearrangeReferences useShortRefName references header
    = ([], inl cat) →
  status (run printHeader useShortRefName references header pre)
    = Returned →
  SAMAlignment.rName sam ≠ "*" →
  resolve_name useShortRefName (shortRefNameToFull cat) sam
    = ([], inl sam') →
  string_find "P"%char (SAMAlignment.cigar sam') = None →
  SAMAlignmentsToCandidates sam' references (refNameToIndex cat)
    parseSmrtTitle keepRefAsForward = Candidates [] →
  run printHeader useShortRefName references header (pre ++ sam :: rest)
    = {| trace :=
           trace (run printHeader useShortRefName references header pre);
         status := OutOfBounds; unread := rest |}.
Proof.
  intros Hsetup Hpre Hu Hr HP Hbuild.
  rewrite (main_ready printHeader _ _ _ pre _ Hsetup) in Hpre |- *.
  rewrite (main_ready printHeader _ _ _ (pre ++ sam :: rest) _ Hsetup).
  simpl in Hpre.
  rewrite loop_app by done.
  assert (body useShortRefName references cat sam = ([], inr OutOfBounds))
    as E.
  { unfold loop_body.
    destruct (decide (SAMAlignment.rName sam = "*")); first done.
    rewrite Hr, bind_pure.
    destruct (decide (is_Some _)) as [[? HP']|_]; first congruence.
    by rewrite Hbuild. }
  rewrite (loop_cons_halt _ _ _ _ _ _ _ E).
  unfold after; simpl. by rewrite app_nil_r.
Qed.

(** *** Short reference names *)

(** The index of lines 125-129 has a key for every name it read. *)
Lemma index_names_keys todo : ∀ i index refs index',
  length (drop i refs) = length todo →
  index_names i todo index refs = ([], inl index') →
  ∀ n, is_Some (index' !! n) ↔
       is_Some (index !! n)
       ∨ n ∈ SAMFullReferenceSequence.GetSequenceName <$> drop i refs.
Proof.
  induction todo as [|reference todo IH]; intros i index refs index' Hlen E n.
  - apply nil_length_inv in Hlen. rewrite Hlen. simpl in E |- *.
    injection E as <-. rewrite elem_of_nil. tauto.
  - destruct (refs !! i) as [r|] eqn:Hr.
    2:{ apply lookup_ge_None in Hr. rewrite length_drop in Hlen.
        simpl in Hlen. lia. }
    rewrite (drop_S _ _ _ Hr) in Hlen |- *. simpl in Hlen, E.
    rewrite Hr in E. rewrite (IH (S i) _ refs index') by (done || lia).
    rewrite lookup_insert_is_Some, fmap_cons, elem_of_cons.
    destruct (decide (SAMFullReferenceSequence.GetSequenceName r = n));
      intuition congruence.
Qed.





End Facts.

(** ** The statistics engine *)

Section Identity.

Lemma count_columns_sane q : ∀ t c, sane c → sane (Model.count_columns q t c).
Proof.
  induction q as [|qc q IH]; intros [|tc t] c Hc; simpl; try done.
  apply IH. unfold sane in *.
  repeat destruct (decide _); simpl; lia.
Qed.

(** A sequence without gaps, set against itself, is all Model.matches. *)
Lemma count_columns_equal q : ∀ c,
  "-"%char ∉ q →
  Model.count_columns q q c
  = Model.mkCounts (Model.matches c + Z.of_nat (length q)) (Model.mismatches c)
      (Model.insertions c) (Model.deletions c).
Proof.
  induction q as [|qc q IH]; intros c Hgap; simpl.
  - destruct c; simpl. f_equal. lia.
  - apply not_elem_of_cons in Hgap as [Hqc Hgap].
    destruct (decide (qc = "-"%char)); first done.
    destruct (decide (qc = qc)); last done.
    rewrite IH by done. simpl. f_equal. lia.
Qed.

Lemma percent_identity_range c :
  sane c → (0 <= Model.percent_identity c <= 100)%Q.
Proof.
  intros (Hm & Hx & Hi & Hd). unfold Model.percent_identity.
  assert (Model.matches c ≤ Model.columns c)%Z as Hle by (unfold Model.columns; lia).
  destruct (Model.columns c) as [|p|p]; last lia.
  - unfold Qdiv, Qinv; simpl. rewrite Qmult_0_r.
    split; [apply Qle_refl|discriminate].
  - split.
    + apply Qle_shift_div_l; first reflexivity. rewrite Qmult_0_l.
      unfold Qle, inject_Z; cbn [Qnum Qden]. lia.
    + apply Qle_shift_div_r; first reflexivity.
      unfold Qle, Qmult, inject_Z; cbn [Qnum Qden]. lia.
Qed.

Lemma percent_identity_full c :
  (0 < Model.columns c)%Z → Model.matches c = Model.columns c →
  (Model.percent_identity c == 100)%Q.
Proof.
  intros Hpos Hall. unfold Model.percent_identity. rewrite Hall.
  rewrite inject_Z_mult. unfold Qdiv.
  rewrite <- Qmult_assoc, Qmult_inv_r; first apply Qmult_1_r.
  unfold Qeq, inject_Z; cbn [Qnum Qden]. lia.
Qed.

Lemma ComputeAlignmentStats_keeps_qLength :
  keeps_qLength Model.ComputeAlignmentStats.
Proof. done. Qed.

Lemma ComputeAlignmentStats_keeps_tName : keeps_tName Model.ComputeAlignmentStats.
Proof. done. Qed.

Lemma SAMAlignmentsToCandidates_names_target :
  names_target_after_record Model.SAMAlignmentsToCandidates.
Proof.
  intros sam references index p k cs a. unfold Model.SAMAlignmentsToCandidates.
  destruct (index !! _); last done.
  destruct (references !! _); last done.
  destruct (Model.decode _ _ _); last done.
  by intros [= <-] ->%list_elem_of_singleton.
Qed.


Lemma RearrangeReferences_reorders : reorders Model.RearrangeReferences.
Proof. intros references header. reflexivity. Qed.

Variable RearrangeReferences :
  list FASTASequence.t → list SAMFullReferenceSequence.t →
  list SAMFullReferenceSequence.t.
Variable SAMAlignmentsToCandidates :
  SAMAlignment.t → list FASTASequence.t → gmap string Z → bool → bool →
  BuildResult.

(** C9: with the statistics engine of §4.4, the percent identity of
    every row written lies between 0 and 100, and it is 100 when the
    aligned query and the aligned target of the row are the same
    non-empty string without gaps. *)
Theorem percent_identity_of_rows
    scoreFn printHeader useShortRefName references header records a :
  PrintFromSAM a
    ∈ trace (main RearrangeReferences SAMAlignmentsToCandidates
               Model.ComputeAlignmentStats scoreFn printHeader
               useShortRefName references header records) →
  (0 <= AlignmentCandidate.pctSimilarity a <= 100)%Q ∧
  (AlignmentCandidate.qAlignedSeq a = AlignmentCandidate.tAlignedSeq a →
   "-"%char ∉ String.list_ascii_of_string (AlignmentCandidate.qAlignedSeq a) →
   AlignmentCandidate.qAlignedSeq a ≠ "" →
   (AlignmentCandidate.pctSimilarity a == 100)%Q).
Proof.
  intros (cat & sam & _ & _ & Hbody)%main_emitted.
  destruct (body_emitted_inv _ _ _ _ _ _ _ _ Hbody)
    as (sam' & c & _ & _ & _ & _ & ->).
  destruct (reconcile_frame sam'
              (Model.ComputeAlignmentStats c
                 (AlignmentCandidate.qAlignedSeq c)
                 (AlignmentCandidate.tAlignedSeq c) scoreFn))
    as (_ & _ & _ & _ & -> & -> & ->).
  simpl. split.
  - apply percent_identity_range. by apply count_columns_sane.
  - intros <- Hgap Hne.
    rewrite count_columns_equal by done.
    assert (String.list_ascii_of_string (AlignmentCandidate.qAlignedSeq c)
              ≠ []) as Hnil.
    { intros Hnil. apply Hne.
      by rewrite <- (String.string_of_list_ascii_of_string
                       (AlignmentCandidate.qAlignedSeq c)), Hnil. }
    apply percent_identity_full; unfold Model.columns; simpl; last lia.
    destruct (String.list_ascii_of_string _); [done|simpl; lia].
Qed.

End Identity.

(** ** Orientation *)

Section Orientation.

Context {T_ScoreFn : Type}.
Variable RearrangeReferences :
  list FASTASequence.t → list SAMFullReferenceSequence.t →
  list SAMFullReferenceSequence.t.
Variables SAMAlignmentsToCandidates SAMAlignmentsToCandidates' :
  SAMAlignment.t → list FASTASequence.t → gmap string Z → bool → bool →
  BuildResult.
Variable ComputeAlignmentStats :
  AlignmentCandidate.t → string → string → T_ScoreFn → AlignmentCandidate.t.
Variable distScoreFn : T_ScoreFn.

(** [main] never asks the builder to keep the reference forward: two
    builders that agree when [keepRefAsForward] is off give the same
    run, whatever they do when it is on. *)
Lemma main_builds_without_keepRefAsForward
    printHeader useShortRefName references header records :
  (∀ sam refs index parseSmrtTitle,
     SAMAlignmentsToCandidates sam refs index parseSmrtTitle false
     = SAMAlignmentsToCandidates' sam refs index parseSmrtTitle false) →
  main RearrangeReferences SAMAlignmentsToCandidates ComputeAlignmentStats
    distScoreFn printHeader useShortRefName references header records
  = main RearrangeReferences SAMAlignmentsToCandidates'
      ComputeAlignmentStats distScoreFn printHeader useShortRefName
      references header records.
Proof.
  intros Hagree. unfold main.
  destruct (setup _ _ _ _) as [out [cat|st]]; last done. f_equal.
  induction records as [|sam records IH]; first done.
  simpl. rewrite IH.
  replace (loop_body SAMAlignmentsToCandidates' ComputeAlignmentStats
             distScoreFn useShortRefName references cat sam)
    with (loop_body SAMAlignmentsToCandidates ComputeAlignmentStats
            distScoreFn useShortRefName references cat sam); first done.
  unfold loop_body. destruct (decide _); first done.
  destruct (resolve_name _ _ _) as [out' [sam'|st]]; last done.
  unfold mbind, M_bind. unfold keepRefAsForward. by rewrite Hagree.
Qed.

End Orientation.

(** C1: a record with the reverse-complement flag set is written with the
    query forward and the target reverse: [main] calls the builder with
    [keepRefAsForward] off, against the comment of lines 175-179. *)
Theorem reversed_record_row :
  Model.IsReverseComplement (SAMAlignment.flag Sample.reversed) = true ∧
  ∃ a,
    trace (Model.main false false Sample.references Sample.header
             [Sample.reversed]) = [PrintFromSAM a] ∧
    AlignmentCandidate.qStrand a = Forward ∧
    AlignmentCandidate.tStrand a = Reverse.
Proof. split; first done. eexists. vm_compute. done. Qed.

(** ** The statements above on the sample inputs *)

Lemma reference_count_mismatch_aborts_witness :
  length Sample.three_references ≠ length Sample.header ∧
  Model.main true false Sample.three_references Sample.header Sample.records
    = {| trace := []; status := AssertionFailed; unread := Sample.records |}.
Proof.
  split; first by vm_compute.
  apply (reference_count_mismatch_aborts Model.RearrangeReferences
           Model.SAMAlignmentsToCandidates Model.ComputeAlignmentStats
           Model.distScoreFn true false Sample.three_references
           Sample.header Sample.records).
  - exact RearrangeReferences_reorders.
  - by vm_compute.
Defined.

Lemma duplicate_short_name_is_fatal_witness :
  ∃ n,
    n ∈ SAMFullReferenceSequence.GetSequenceName <$> Sample.duplicate_header ∧
    Model.main true false Sample.references Sample.duplicate_header
      Sample.records
    = {| trace := [Cout ("ERROR, Found more than one reference " +:+ n
                         +:+ "in sam header")];
         status := ExitFailure; unread := Sample.records |}.
Proof.
  apply (duplicate_short_name_is_fatal Model.RearrangeReferences
           Model.SAMAlignmentsToCandidates Model.ComputeAlignmentStats
           Model.distScoreFn true Sample.references Sample.duplicate_header
           Sample.records).
  - exact RearrangeReferences_reorders.
  - reflexivity.
  - simpl. intros Hdup. apply NoDup_cons_1_1 in Hdup. apply Hdup. by left.
Defined.

Lemma skipped_records_witness :
  while_loop Model.SAMAlignmentsToCandidates Model.ComputeAlignmentStats
    Model.distScoreFn false Sample.references Sample.cat
    [Sample.unmapped; Sample.perfect]
  = while_loop Model.SAMAlignmentsToCandidates Model.ComputeAlignmentStats
      Model.distScoreFn false Sample.references Sample.cat [Sample.perfect]
  ∧
  while_loop Model.SAMAlignmentsToCandidates Model.ComputeAlignmentStats
    Model.distScoreFn false Sample.references Sample.cat
    [Sample.padded; Sample.perfect]
  = after
      [Cout "WARNING. Could not process sam record with 'P' in its cigar string."]
      (while_loop Model.SAMAlignmentsToCandidates Model.ComputeAlignmentStats
         Model.distScoreFn false Sample.references Sample.cat [Sample.perfect])
  ∧
  while_loop Fake.two_segments Model.ComputeAlignmentStats
    Model.distScoreFn false Sample.references Sample.cat
    [Sample.reversed; Sample.perfect]
  = after
      [Cout "WARNING. Ignore an alignment which has multiple segments."]
      (while_loop Fake.two_segments Model.ComputeAlignmentStats
         Model.distScoreFn false Sample.references Sample.cat [Sample.perfect]).
Proof.
  split; [|split].
  - apply (proj1 (skipped_records Model.SAMAlignmentsToCandidates
                    Model.ComputeAlignmentStats Model.distScoreFn false
                    Sample.references Sample.cat Sample.unmapped
                    [Sample.perfect])).
    reflexivity.
  - apply (proj1 (proj2 (skipped_records Model.SAMAlignmentsToCandidates
                    Model.ComputeAlignmentStats Model.distScoreFn false
                    Sample.references Sample.cat Sample.padded
                    [Sample.perfect]))).
    + by vm_compute.
    + right. vm_compute. by eexists.
    + vm_compute. by eexists.
  - apply (proj2 (proj2 (skipped_records Fake.two_segments
                    Model.ComputeAlignmentStats Model.distScoreFn false
                    Sample.references Sample.cat Sample.reversed
                    [Sample.perfect]))
             (SAMAlignment.set_rName "chrA first chromosome" Sample.reversed)
             [Fake.candidate
                (SAMAlignment.set_rName "chrA first chromosome"
                   Sample.reversed);
              Fake.candidate
                (SAMAlignment.set_rName "chrA first chromosome"
                   Sample.reversed)]).
    + by vm_compute.
    + by vm_compute.
    + by vm_compute.
    + reflexivity.
    + simpl. lia.
Defined.

(** C4: as stated it does not hold: an unmapped record is skipped without any
    warning, and a padded record whose reference name does not resolve
    ends the run instead of being skipped. *)
Lemma unmapped_record_is_skipped_silently :
  trace (Model.main false false Sample.references Sample.header
           [Sample.unmapped]) = [] ∧
  Model.main false false Sample.references Sample.header
    [Sample.padded_stranger; Sample.perfect]
  = {| trace := [Cout "ERROR, Could not find chrZ in the reference repository."];
       status := ExitFailure; unread := [Sample.perfect] |}.
Proof. by vm_compute. Qed.

Lemma score_and_mapQV_pass_through_witness :
  ∃ cat sam,
    setup Model.RearrangeReferences false Sample.references Sample.header
      = ([], inl cat) ∧
    sam ∈ Sample.records ∧
    loop_body Model.SAMAlignmentsToCandidates Model.ComputeAlignmentStats
      Model.distScoreFn false Sample.references cat sam
      = ([PrintFromSAM Sample.perfect_row], inl tt) ∧
    AlignmentCandidate.score Sample.perfect_row = SAMAlignment.as_ sam ∧
    AlignmentCandidate.mapQV Sample.perfect_row = SAMAlignment.mapQV sam.
Proof.
  apply (score_and_mapQV_pass_through Model.RearrangeReferences
           Model.SAMAlignmentsToCandidates Model.ComputeAlignmentStats
           Model.distScoreFn true false Sample.references Sample.header
           Sample.records Sample.perfect_row).
  vm_compute. repeat constructor.
Defined.

Lemma qLength_from_xq_or_cigar_witness :
  ∃ cat sam sam' candidate,
    setup Model.RearrangeReferences false Sample.references Sample.header
      = ([], inl cat) ∧
    sam ∈ Sample.records ∧
    loop_body Model.SAMAlignmentsToCandidates Model.ComputeAlignmentStats
      Model.distScoreFn false Sample.references cat sam
      = ([PrintFromSAM Sample.perfect_row], inl tt) ∧
    resolve_name false (shortRefNameToFull cat) sam = ([], inl sam') ∧
    Model.SAMAlignmentsToCandidates sam' Sample.references
      (refNameToIndex cat) parseSmrtTitle keepRefAsForward
      = Candidates [candidate] ∧
    Sample.perfect_row
      = reconcile sam'
          (Model.ComputeAlignmentStats candidate
             (AlignmentCandidate.qAlignedSeq candidate)
             (AlignmentCandidate.tAlignedSeq candidate) Model.distScoreFn) ∧
    AlignmentCandidate.qLength Sample.perfect_row
      = if decide (SAMAlignment.xq sam = 0%Z)
        then AlignmentCandidate.qLength candidate
        else SAMAlignment.xq sam.
Proof.
  apply (qLength_from_xq_or_cigar Model.RearrangeReferences
           Model.SAMAlignmentsToCandidates Model.ComputeAlignmentStats
           Model.distScoreFn true false Sample.references Sample.header
           Sample.records Sample.perfect_row).
  - exact ComputeAlignmentStats_keeps_qLength.
  - vm_compute. repeat constructor.
Defined.

Lemma unresolved_reference_is_fatal_witness :
  Model.main true false Sample.references Sample.header
    ([Sample.unmapped; Sample.perfect]
       ++ Sample.padded_stranger :: [Sample.reversed])
  = {| trace :=
         trace (Model.main true false Sample.references Sample.header
                  [Sample.unmapped; Sample.perfect])
         ++ [Cout "ERROR, Could not find chrZ in the reference repository."];
       status := ExitFailure; unread := [Sample.reversed] |}.
Proof.
  apply (unresolved_reference_is_fatal Model.RearrangeReferences
           Model.SAMAlignmentsToCandidates Model.ComputeAlignmentStats
           Model.distScoreFn true Sample.references Sample.header Sample.cat
           [Sample.unmapped; Sample.perfect] Sample.padded_stranger
           [Sample.reversed]).
  - by vm_compute.
  - by vm_compute.
  - by vm_compute.
  - by vm_compute.
Defined.



Lemma percent_identity_of_rows_witness :
  (0 <= AlignmentCandidate.pctSimilarity Sample.perfect_row <= 100)%Q ∧
  (AlignmentCandidate.pctSimilarity Sample.perfect_row == 100)%Q.
Proof.
  destruct (percent_identity_of_rows Model.RearrangeReferences
              Model.SAMAlignmentsToCandidates Model.distScoreFn true false
              Sample.references Sample.header Sample.records
              Sample.perfect_row) as [Hrange Hfull].
  - vm_compute. repeat constructor.
  - split; first exact Hrange. apply Hfull.
    + reflexivity.
    + vm_compute. intros Hin.
      repeat (apply elem_of_cons in Hin as [?|Hin]; first done).
      by apply elem_of_nil in Hin.
    + done.
Defined.

Lemma empty_conversion_reads_out_of_bounds_witness :
  main Model.RearrangeReferences Fake.no_candidates
    Model.ComputeAlignmentStats Model.distScoreFn true false
    Sample.references Sample.header
    ([Sample.unmapped] ++ Sample.perfect :: [Sample.reversed])
  = {| trace :=
         trace (main Model.RearrangeReferences Fake.no_candidates
                  Model.ComputeAlignmentStats Model.distScoreFn true false
                  Sample.references Sample.header [Sample.unmapped]);
       status := OutOfBounds; unread := [Sample.reversed] |}.
Proof.
  apply (empty_conversion_reads_out_of_bounds Model.RearrangeReferences
           Fake.no_candidates Model.ComputeAlignmentStats Model.distScoreFn
           true false Sample.references Sample.header Sample.cat
           [Sample.unmapped] Sample.perfect
           (SAMAlignment.set_rName "chrB second chromosome" Sample.perfect)
           [Sample.reversed]).
  - by vm_compute.
  - by vm_compute.
  - by vm_compute.
  - by vm_compute.
  - by vm_compute.
  - reflexivity.
Defined.

(** * More about the setup and the record loop *)

Section Coverage.

Context {T_ScoreFn : Type}.
Variable RearrangeReferences :
  list FASTASequence.t → list SAMFullReferenceSequence.t →
  list SAMFullReferenceSequence.t.
Variable SAMAlignmentsToCandidates :
  SAMAlignment.t → list FASTASequence.t → gmap string Z → bool → bool →
  BuildResult.
Variable ComputeAlignmentStats :
  AlignmentCandidate.t → string → string → T_ScoreFn → AlignmentCandidate.t.
Variable distScoreFn : T_ScoreFn.

Local Abbreviation name := SAMFullReferenceSequence.GetSequenceName.
Local Abbreviation body :=
  (loop_body SAMAlignmentsToCandidates ComputeAlignmentStats distScoreFn).
Local Abbreviation loop :=
  (while_loop SAMAlignmentsToCandidates ComputeAlignmentStats distScoreFn).
Local Abbreviation run :=
  (main RearrangeReferences SAMAlignmentsToCandidates ComputeAlignmentStats
     distScoreFn).

(** *** The two loops of the setup *)

Lemma bind_names_length todo : ∀ i names refs out names' refs',
  bind_names i todo names refs = (out, inl (names', refs')) →
  length refs' = length refs.
Proof.
  induction todo as [|reference todo IH]; intros i names refs out names' refs';
    simpl.
  - by intros [= _ _ <-].
  - destruct (refs !! i) as [r|]; last done.
    destruct (decide _); first done.
    intros E%IH. by rewrite length_insert in E.
Qed.

(** With as many descriptors left as catalogue entries, and their names
    new and distinct, the loop of lines 111-121 runs to its end: it binds
    each name to the title at the same index, writes that title over the
    name, and touches nothing else. *)
Lemma bind_names_binds todo : ∀ i names refs,
  length (drop i refs) = length todo →
  NoDup (name <$> drop i refs) →
  (∀ n, n ∈ name <$> drop i refs → names !! n = None) →
  ∃ names' refs',
    bind_names i todo names refs = ([], inl (names', refs')) ∧
    length refs' = length refs ∧
    (∀ j, j < i → refs' !! j = refs !! j) ∧
    (∀ k reference r,
       todo !! k = Some reference → refs !! (i + k) = Some r →
       refs' !! (i + k)
         = Some (SAMFullReferenceSequence.set_sequenceName
                   (FASTASequence.title reference) r) ∧
       names' !! name r = Some (FASTASequence.title reference)) ∧
    (∀ n, n ∉ name <$> drop i refs → names' !! n = names !! n).
Proof.
  induction todo as [|reference todo IH]; intros i names refs Hlen Hnd Hnew.
  - exists names, refs. simpl. by repeat split.
  - destruct (refs !! i) as [r|] eqn:Hr.
    2:{ apply lookup_ge_None in Hr. rewrite length_drop in Hlen.
        simpl in Hlen. lia. }
    rewrite (drop_S _ _ _ Hr) in Hlen, Hnd, Hnew. simpl in Hlen.
    rewrite fmap_cons in Hnd, Hnew. apply NoDup_cons in Hnd as [Hr_new Hnd].
    simpl. rewrite Hr.
    destruct (decide _) as [[v Hbound]|_].
    { rewrite Hnew in Hbound; [done|by left]. }
    set (names1 := <[name r := FASTASequence.title reference]> names).
    set (refs1 := <[i := SAMFullReferenceSequence.set_sequenceName
                           (FASTASequence.title reference) r]> refs).
    assert (drop (S i) refs1 = drop (S i) refs) as Hdrop
      by (apply drop_insert_lt; lia).
    destruct (IH (S i) names1 refs1)
      as (names' & refs' & E & Hlen' & Hbefore & Hbound & Hother).
    { rewrite Hdrop. lia. }
    { by rewrite Hdrop. }
    { intros n Hn. rewrite Hdrop in Hn. unfold names1.
      rewrite lookup_insert_ne by (intros Heq; apply Hr_new; by rewrite Heq).
      apply Hnew. by right. }
    exists names', refs'. rewrite E. split; first done.
    assert (i < length refs) as Hi by by apply lookup_lt_Some in Hr.
    split; [|split; [|split]].
    + unfold refs1 in Hlen'. by rewrite length_insert in Hlen'.
    + intros j Hj. rewrite Hbefore by lia. unfold refs1.
      apply list_lookup_insert_ne. lia.
    + intros [|k] reference' r' Hk Hr'.
      * rewrite Nat.add_0_r in Hr' |- *. simpl in Hk.
        injection Hk as <-. rewrite Hr in Hr'. injection Hr' as <-.
        split.
        -- rewrite Hbefore by lia. unfold refs1.
           by apply list_lookup_insert_eq.
        -- rewrite Hother by by rewrite Hdrop. unfold names1.
           apply lookup_insert_eq.
      * simpl in Hk. replace (i + S k) with (S i + k) in Hr' |- * by lia.
        apply (Hbound k reference' r' Hk). unfold refs1.
        rewrite list_lookup_insert_ne by lia. done.
    + intros n Hn. rewrite drop_S with (x := r) in Hn by done.
      rewrite fmap_cons in Hn. apply not_elem_of_cons in Hn as [Hne Hn].
      rewrite Hother by by rewrite Hdrop. unfold names1.
      by apply lookup_insert_ne.
Qed.

(** The loop of lines 111-121 stops at the first descriptor whose name
    is already bound. *)
Lemma bind_names_first_repeat todo : ∀ i names refs j r,
  length (drop i refs) = length todo →
  i ≤ j → refs !! j = Some r →
  NoDup (name <$> take (j - i) (drop i refs)) →
  (∀ n, n ∈ name <$> take (j - i) (drop i refs) → names !! n = None) →
  is_Some (names !! name r)
    ∨ name r ∈ name <$> take (j - i) (drop i refs) →
  bind_names i todo names refs
    = ([Cout ("ERROR, Found more than one reference " +:+ name r
              +:+ "in sam header")], inr ExitFailure).
Proof.
  induction todo as [|reference todo IH];
    intros i names refs j r Hlen Hij Hj Hnd Hnew Hrep.
  - apply lookup_lt_Some in Hj. rewrite length_drop in Hlen.
    simpl in Hlen. lia.
  - destruct (refs !! i) as [r0|] eqn:Hr0.
    2:{ apply lookup_ge_None in Hr0. rewrite length_drop in Hlen.
        simpl in Hlen. lia. }
    rewrite (drop_S _ _ _ Hr0) in Hlen, Hnd, Hnew, Hrep. simpl in Hlen.
    simpl. rewrite Hr0.
    destruct (decide (i = j)) as [->|Hne].
    + rewrite Hj in Hr0. injection Hr0 as <-.
      rewrite Nat.sub_diag in Hrep. simpl in Hrep.
      destruct Hrep as [Hrep|Hrep]; last by apply elem_of_nil in Hrep.
      by destruct (decide _).
    + replace (j - i) with (S (j - S i)) in Hnd, Hnew, Hrep by lia.
      simpl in Hnd, Hnew, Hrep.
      apply NoDup_cons in Hnd as [Hr0_new Hnd].
      destruct (decide _) as [[v Hbound]|_].
      { rewrite Hnew in Hbound; [done|by left]. }
      apply (IH (S i) _ _ j r).
      * rewrite drop_insert_lt by lia. lia.
      * lia.
      * by rewrite list_lookup_insert_ne.
      * rewrite drop_insert_lt by lia. done.
      * intros n Hn. rewrite drop_insert_lt in Hn by lia.
        rewrite lookup_insert_ne by (intros Heq; apply Hr0_new; by rewrite Heq).
        apply Hnew. by right.
      * rewrite drop_insert_lt by lia.
        destruct Hrep as [Hrep|[Heq|Hin]%elem_of_cons].
        -- left. apply lookup_insert_is_Some.
           destruct (decide (name r0 = name r)); auto.
        -- left. rewrite Heq, lookup_insert_eq. by eexists.
        -- by right.
Qed.

(** With as many descriptors left as catalogue entries, the loop of
    lines 126-129 stays inside the vector. *)
Lemma index_names_total todo : ∀ i index refs,
  length (drop i refs) = length todo →
  ∃ index', index_names i todo index refs = ([], inl index').
Proof.
  induction todo as [|reference todo IH]; intros i index refs Hlen;
    simpl; first by eexists.
  destruct (refs !! i) as [r|] eqn:Hr.
  - apply IH. rewrite (drop_S _ _ _ Hr) in Hlen. simpl in Hlen. lia.
  - apply lookup_ge_None in Hr. rewrite length_drop in Hlen.
    simpl in Hlen. lia.
Qed.

(** A later assignment [refNameToIndex[refName] = i] replaces an earlier
    one: a key ends up with the last index that carries its name. *)
Lemma index_names_lookup todo : ∀ i index refs index' n z,
  length (drop i refs) = length todo →
  index_names i todo index refs = ([], inl index') →
  index' !! n = Some z →
  (∃ j r, i ≤ j ∧ refs !! j = Some r ∧ name r = n ∧ z = Z.of_nat j ∧
     ∀ j' r', j < j' → refs !! j' = Some r' → name r' ≠ n)
  ∨ ((n ∉ name <$> drop i refs) ∧ index !! n = Some z).
Proof.
  induction todo as [|reference todo IH];
    intros i index refs index' n z Hlen E Hz.
  - apply nil_length_inv in Hlen. rewrite Hlen. simpl in E.
    injection E as <-. right. split; [apply not_elem_of_nil|done].
  - destruct (refs !! i) as [r|] eqn:Hr.
    2:{ apply lookup_ge_None in Hr. rewrite length_drop in Hlen.
        simpl in Hlen. lia. }
    rewrite (drop_S _ _ _ Hr) in Hlen |- *. simpl in Hlen, E.
    rewrite Hr in E.
    destruct (IH (S i) _ refs index' n z ltac:(lia) E Hz)
      as [(j & r' & Hj & Hr' & Hn & -> & Hlast)|[Hnot Hold]].
    + left. exists j, r'. repeat split; try done. lia.
    + destruct (decide (name r = n)) as [Heq|Hne].
      * left. exists i, r. rewrite Heq, lookup_insert_eq in Hold.
        injection Hold as <-. repeat split; try done.
        intros j' r' Hj' Hr' Hn. apply Hnot.
        apply list_elem_of_fmap. exists r'. split; first done.
        apply list_elem_of_lookup. exists (j' - S i).
        rewrite lookup_drop. by replace (S i + (j' - S i)) with j' by lia.
      * right. rewrite lookup_insert_ne in Hold by done. split; last done.
        rewrite fmap_cons. apply not_elem_of_cons. split; [done|done].
Qed.

(** What a successful setup has done. *)
Lemma setup_inv useShortRefName references header out cat :
  setup RearrangeReferences useShortRefName references header
    = (out, inl cat) →
  length references = length (RearrangeReferences references header) ∧
  (if useShortRefName
   then shortRefNameToFull cat = ∅ ∧
        alignmentSet_references cat = RearrangeReferences references header
   else bind_names 0 references ∅ (RearrangeReferences references header)
        = ([], inl (shortRefNameToFull cat, alignmentSet_references cat))) ∧
  index_names 0 references ∅ (alignmentSet_references cat)
    = ([], inl (refNameToIndex cat)).
Proof.
  unfold setup, assert. case_bool_decide as Hlen; last done.
  unfold mret, M_ret. rewrite bind_pure.
  destruct useShortRefName; simpl negb; cbv iota.
  - rewrite bind_pure.
    destruct (index_names_cases 0 references ∅
                (RearrangeReferences references header))
      as [[index E]|E]; rewrite E; last done.
    rewrite bind_pure. by intros [= _ <-].
  - destruct (bind_names_cases 0 references ∅
                (RearrangeReferences references header))
      as [(names & refs & E)|[(n & E)|E]]; rewrite E; try done.
    rewrite bind_pure.
    destruct (index_names_cases 0 references ∅ refs)
      as [[index E']|E']; rewrite E'; last done.
    rewrite bind_pure. by intros [= _ <-].
Qed.

Lemma bind_names_in_bounds todo : ∀ i names refs out,
  length (drop i refs) = length todo →
  bind_names i todo names refs ≠ (out, inr OutOfBounds).
Proof.
  induction todo as [|reference todo IH]; intros i names refs out Hlen;
    simpl; first done.
  destruct (refs !! i) as [r|] eqn:Hr.
  - destruct (decide _); first done.
    apply IH. rewrite drop_insert_lt by lia.
    rewrite (drop_S _ _ _ Hr) in Hlen. simpl in Hlen. lia.
  - apply lookup_ge_None in Hr. rewrite length_drop in Hlen.
    simpl in Hlen. lia.
Qed.

(** *** The setup as a whole *)

(** X1: the assertion of line 109 keeps both loops of the setup inside
    [alignmentSet.references]: the setup never reads past its end. *)
Theorem setup_stays_in_bounds useShortRefName references header out :
  setup RearrangeReferences useShortRefName references header
    ≠ (out, inr OutOfBounds).
Proof.
  unfold setup, assert. case_bool_decide as Hlen; last done.
  unfold mret, M_ret. rewrite bind_pure.
  destruct useShortRefName; simpl negb; cbv iota.
  - rewrite bind_pure.
    destruct (index_names_total references 0 ∅
                (RearrangeReferences references header)) as [index ->];
      first by rewrite drop_0.
    by rewrite bind_pure.
  - destruct (bind_names_cases 0 references ∅
                (RearrangeReferences references header))
      as [(names & refs & E)|[(n & E)|E]].
    + apply bind_names_length in E as Hlen'. rewrite E, bind_pure.
      destruct (index_names_total references 0 ∅ refs) as [index ->];
        first by rewrite drop_0, Hlen'.
      by rewrite bind_pure.
    + by rewrite E.
    + exfalso. revert E. apply bind_names_in_bounds. by rewrite drop_0.
Qed.

(** X2: with full names in use the setup succeeds exactly when the
    catalogue and the rearranged header have the same number of entries
    and no two descriptors share a name. *)
Theorem full_names_setup_succeeds_iff references header :
  (∃ cat, setup RearrangeReferences false references header = ([], inl cat))
  ↔ length references = length (RearrangeReferences references header) ∧
    NoDup (name <$> RearrangeReferences references header).
Proof.
  split.
  - intros [cat (Hlen & E & _)%setup_inv]. split; first done.
    destruct (decide (NoDup (name <$> RearrangeReferences references header)))
      as [?|Hdup]; first done.
    destruct (bind_names_duplicate RearrangeReferences references 0 ∅
                (RearrangeReferences references header)) as (n & _ & E').
    + by rewrite drop_0.
    + left. by rewrite drop_0.
    + by rewrite E' in E.
  - intros [Hlen Hnd].
    destruct (bind_names_binds references 0 ∅
                (RearrangeReferences references header))
      as (names & refs & E & Hlen' & _); rewrite ?drop_0; try done.
    destruct (index_names_total references 0 ∅ refs) as [index E'];
      first by rewrite drop_0, Hlen'.
    eexists. unfold setup, assert.
    rewrite bool_decide_eq_true_2 by done.
    unfold mret, M_ret. rewrite bind_pure. simpl negb. cbv iota.
    by rewrite E, bind_pure, E', bind_pure.
Qed.

(** X16: with short names in use the setup succeeds exactly when the
    two counts agree; repeated names in the header are accepted. *)
Theorem short_names_setup_succeeds_iff references header :
  (∃ cat, setup RearrangeReferences true references header = ([], inl cat))
  ↔ length references = length (RearrangeReferences references header).
Proof.
  split.
  - by intros [cat (Hlen & _)%setup_inv].
  - intros Hlen.
    destruct (index_names_total references 0 ∅
                (RearrangeReferences references header)) as [index E'];
      first by rewrite drop_0.
    eexists. unfold setup, assert.
    rewrite bool_decide_eq_true_2 by done.
    unfold mret, M_ret. rewrite bind_pure. simpl negb. cbv iota.
    by rewrite bind_pure, E', bind_pure.
Qed.

(** *** The maps the setup builds *)

Lemma setup_full_names_inv references header out cat :
  setup RearrangeReferences false references header = (out, inl cat) →
  length references = length (RearrangeReferences references header) ∧
  NoDup (name <$> RearrangeReferences references header) ∧
  (∀ k reference r,
     references !! k = Some reference →
     RearrangeReferences references header !! k = Some r →
     alignmentSet_references cat !! k
       = Some (SAMFullReferenceSequence.set_sequenceName
                 (FASTASequence.title reference) r) ∧
     shortRefNameToFull cat !! name r = Some (FASTASequence.title reference)) ∧
  (∀ n, (n ∉ name <$> RearrangeReferences references header) →
        shortRefNameToFull cat !! n = None).
Proof.
  intros (Hlen & E & _)%setup_inv.
  assert (NoDup (name <$> RearrangeReferences references header)) as Hnd.
  { destruct (decide (NoDup (name <$> RearrangeReferences references header)))
      as [?|Hdup]; first done.
    destruct (bind_names_duplicate RearrangeReferences references 0 ∅
                (RearrangeReferences references header)) as (n & _ & E').
    - by rewrite drop_0.
    - left. by rewrite drop_0.
    - by rewrite E' in E. }
  destruct (bind_names_binds references 0 ∅
              (RearrangeReferences references header))
    as (names & refs & E' & _ & _ & Hbound & Hother); rewrite ?drop_0;
    try done.
  rewrite E' in E. injection E as -> ->.
  split; [done|split; [done|split]].
  - intros k reference r Hk Hr. by apply (Hbound k reference r).
  - intros n Hn. rewrite Hother by by rewrite drop_0. apply lookup_empty.
Qed.

Lemma setup_index_inv useShortRefName references header out cat :
  setup RearrangeReferences useShortRefName references header
    = (out, inl cat) →
  length (alignmentSet_references cat) = length references ∧
  index_names 0 references ∅ (alignmentSet_references cat)
    = ([], inl (refNameToIndex cat)).
Proof.
  intros (Hlen & E & Hindex)%setup_inv. split; last done.
  destruct useShortRefName.
  - destruct E as [_ ->]. done.
  - apply bind_names_length in E. by rewrite E.
Qed.

(** An entry of the name map comes from a descriptor and the catalogue
    entry at its index. *)
Lemma name_map_entry references header out cat n full :
  setup RearrangeReferences false references header = (out, inl cat) →
  shortRefNameToFull cat !! n = Some full →
  ∃ i r reference,
    RearrangeReferences references header !! i = Some r ∧
    references !! i = Some reference ∧
    name r = n ∧ FASTASequence.title reference = full.
Proof.
  intros (Hlen & Hnd & Hbound & Hother)%setup_full_names_inv Hn.
  destruct (decide (n ∈ name <$> RearrangeReferences references header))
    as [Hin|Hout]; last by rewrite Hother in Hn.
  apply list_elem_of_fmap in Hin as (r & -> & Hr).
  apply list_elem_of_lookup in Hr as [i Hi].
  destruct (lookup_lt_is_Some_2 references i) as [reference Href].
  { rewrite Hlen. by apply lookup_lt_Some in Hi. }
  exists i, r, reference. repeat split; try done.
  destruct (Hbound i reference r Href Hi) as [_ Hb]. congruence.
Qed.

(** X3: after a successful setup with full names in use, the name map
    binds exactly the header's names, each to the title of the catalogue
    entry at the same index. *)
Theorem name_map_binds_names_to_titles references header cat n full :
  setup RearrangeReferences false references header = ([], inl cat) →
  shortRefNameToFull cat !! n = Some full ↔
  ∃ i r reference,
    RearrangeReferences references header !! i = Some r ∧
    references !! i = Some reference ∧
    name r = n ∧ FASTASequence.title reference = full.
Proof.
  intros (Hlen & Hnd & Hbound & Hother)%setup_full_names_inv. split.
  - intros Hn.
    destruct (decide (n ∈ name <$> RearrangeReferences references header))
      as [Hin|Hout]; last by rewrite Hother in Hn.
    apply list_elem_of_fmap in Hin as (r & -> & Hr).
    apply list_elem_of_lookup in Hr as [i Hi].
    destruct (lookup_lt_is_Some_2 references i) as [reference Href].
    { rewrite Hlen. by apply lookup_lt_Some in Hi. }
    exists i, r, reference. repeat split; try done.
    destruct (Hbound i reference r Href Hi) as [_ Hb]. congruence.
  - intros (i & r & reference & Hi & Href & <- & <-).
    by apply (Hbound i reference r).
Qed.

(** X4: after a successful setup with full names in use, every header
    descriptor carries the title of the catalogue entry at its index in
    place of its name, and is otherwise unchanged. *)
Theorem full_names_replace_header_names references header cat :
  setup RearrangeReferences false references header = ([], inl cat) →
  alignmentSet_references cat
  = zip_with SAMFullReferenceSequence.set_sequenceName
      (FASTASequence.title <$> references)
      (RearrangeReferences references header).
Proof.
  intros Hsetup.
  pose proof (setup_index_inv _ _ _ _ _ Hsetup) as [Hlen' _].
  apply setup_full_names_inv in Hsetup as (Hlen & _ & Hbound & _).
  apply list_eq. intros i. rewrite lookup_zip_with, list_lookup_fmap.
  destruct (references !! i) as [reference|] eqn:Href; simpl.
  - destruct (lookup_lt_is_Some_2 (RearrangeReferences references header) i)
      as [r Hr].
    { rewrite <- Hlen. by apply lookup_lt_Some in Href. }
    rewrite Hr. simpl. by apply (Hbound i reference r).
  - apply lookup_ge_None. apply lookup_ge_None in Href. lia.
Qed.

(** X5: after a successful setup, in either mode, the index maps a name
    to the last position of [alignmentSet.references] that carries it, and
    it has an entry for every name carried. *)
Theorem name_index_points_at_last_bearer
    useShortRefName references header cat n z :
  setup RearrangeReferences useShortRefName references header
    = ([], inl cat) →
  refNameToIndex cat !! n = Some z ↔
  ∃ i r,
    z = Z.of_nat i ∧
    alignmentSet_references cat !! i = Some r ∧ name r = n ∧
    ∀ j r', i < j → alignmentSet_references cat !! j = Some r' →
            name r' ≠ n.
Proof.
  intros [Hlen Hindex]%setup_index_inv.
  assert (∀ z', refNameToIndex cat !! n = Some z' →
            ∃ i r, z' = Z.of_nat i ∧
              alignmentSet_references cat !! i = Some r ∧ name r = n ∧
              ∀ j r', i < j → alignmentSet_references cat !! j = Some r' →
                      name r' ≠ n) as Hfwd.
  { intros z' Hz'.
    destruct (index_names_lookup references 0 ∅
                (alignmentSet_references cat) (refNameToIndex cat) n z')
      as [(i & r & _ & Hr & Hn & -> & Hlast)|[_ Hempty]];
      rewrite ?drop_0; try done.
    by exists i, r. }
  split; first apply Hfwd.
  intros (i & r & -> & Hr & Hn & Hlast).
  destruct (proj2 (index_names_keys RearrangeReferences references 0 ∅
                     (alignmentSet_references cat) (refNameToIndex cat)
                     ltac:(by rewrite drop_0) Hindex n)) as [z' Hz'].
  { right. rewrite drop_0. apply list_elem_of_fmap. exists r.
    split; first done. by apply list_elem_of_lookup_2 in Hr. }
  rewrite Hz'. f_equal.
  destruct (Hfwd z' Hz') as (i' & r' & -> & Hr' & Hn' & Hlast').
  f_equal. destruct (Nat.lt_trichotomy i i') as [Hlt|[?|Hlt]]; first last.
  - by destruct (Hlast' i r Hlt Hr).
  - done.
  - by destruct (Hlast i' r' Hlt Hr').
Qed.

(** X6: with full names in use, the two lookups of the loop chain: the
    title the name map gives for a short name is a key of the index, and
    the index leads to a catalogue entry with that title. *)
Theorem resolved_name_is_in_catalogue references header cat short full :
  setup RearrangeReferences false references header = ([], inl cat) →
  shortRefNameToFull cat !! short = Some full →
  ∃ i reference,
    refNameToIndex cat !! full = Some (Z.of_nat i) ∧
    references !! i = Some reference ∧
    FASTASequence.title reference = full.
Proof.
  intros Hsetup Hshort.
  pose proof (setup_index_inv _ _ _ _ _ Hsetup) as [Hlen' Hindex].
  pose proof (setup_full_names_inv _ _ _ _ Hsetup)
    as (Hlen & Hnd & Hbound & Hother).
  assert (∃ k r reference,
            RearrangeReferences references header !! k = Some r ∧
            references !! k = Some reference ∧
            FASTASequence.title reference = full) as (k & r & reference & Hk & Href & Htitle).
  { destruct (decide (short ∈ name <$> RearrangeReferences references header))
      as [Hin|Hout]; last by rewrite Hother in Hshort.
    apply list_elem_of_fmap in Hin as (r & -> & Hr).
    apply list_elem_of_lookup in Hr as [k Hk].
    destruct (lookup_lt_is_Some_2 references k) as [reference Href].
    { rewrite Hlen. by apply lookup_lt_Some in Hk. }
    exists k, r, reference. repeat split; try done.
    destruct (Hbound k reference r Href Hk) as [_ Hb]. congruence. }
  destruct (Hbound k reference r Href Hk) as [Hasr _].
  destruct (proj2 (index_names_keys RearrangeReferences references 0 ∅
                     (alignmentSet_references cat) (refNameToIndex cat)
                     ltac:(by rewrite drop_0) Hindex full)) as [z Hz].
  { right. rewrite drop_0. apply list_elem_of_fmap.
    eexists. split; last by apply list_elem_of_lookup_2 in Hasr.
    by rewrite <- Htitle. }
  destruct (index_names_lookup references 0 ∅
              (alignmentSet_references cat) (refNameToIndex cat) full z)
    as [(i & r' & _ & Hr' & Hn & -> & _)|[_ Hempty]];
    rewrite ?drop_0; try done.
  destruct (lookup_lt_is_Some_2 references i) as [reference' Href'].
  { rewrite <- Hlen'. by apply lookup_lt_Some in Hr'. }
  destruct (lookup_lt_is_Some_2 (RearrangeReferences references header) i)
    as [r0 Hr0].
  { rewrite <- Hlen. by apply lookup_lt_Some in Href'. }
  exists i, reference'. repeat split; try done.
  destruct (Hbound i reference' r0 Href' Hr0) as [Hasr' _].
  rewrite Hasr' in Hr'. injection Hr' as <-. done.
Qed.

(** X15: with full names in use and equal counts, the run ends at the
    first descriptor whose name an earlier one carries, and the error
    message names it. *)
Theorem first_repeated_name_is_reported
    printHeader references header records j r :
  length references = length (RearrangeReferences references header) →
  RearrangeReferences references header !! j = Some r →
  NoDup (name <$> take j (RearrangeReferences references header)) →
  name r ∈ name <$> take j (RearrangeReferences references header) →
  run printHeader false references header records
    = {| trace := [Cout ("ERROR, Found more than one reference " +:+ name r
                         +:+ "in sam header")];
         status := ExitFailure; unread := records |}.
Proof.
  intros Hlen Hj Hnd Hin.
  assert (bind_names 0 references ∅ (RearrangeReferences references header)
          = ([Cout ("ERROR, Found more than one reference " +:+ name r
                    +:+ "in sam header")], inr ExitFailure)) as E.
  { apply (bind_names_first_repeat references 0 ∅ _ j r);
      rewrite ?drop_0, ?Nat.sub_0_r; try done; [lia|auto]. }
  unfold main, setup, assert.
  rewrite bool_decide_eq_true_2 by done.
  unfold mret, M_ret. rewrite bind_pure. simpl negb. cbv iota.
  by rewrite E.
Qed.

(** *** What the loop writes *)

Lemma body_out_cases useShortRefName references cat sam :
  ∃ out r,
    body useShortRefName references cat sam = (out, r) ∧
    (out = [] ∨ (∃ message, out = [Cout message])
     ∨ (∃ a, out = [PrintFromSAM a] ∧ r = inl tt)).
Proof.
  pose proof (loop_body_case SAMAlignmentsToCandidates ComputeAlignmentStats
                distScoreFn useShortRefName references cat sam) as C.
  destruct (body useShortRefName references cat sam) as [out r].
  exists out, r. split; first done. inversion C; eauto.
Qed.

Lemma loop_writes_no_header useShortRefName references cat records :
  PrintHeader ∉ trace (loop useShortRefName references cat records).
Proof.
  induction records as [|sam records IH]; simpl; first apply not_elem_of_nil.
  destruct (body_out_cases useShortRefName references cat sam)
    as (out & r & -> & Hout).
  assert (PrintHeader ∉ out) as Hno.
  { destruct Hout as [->|[[message ->]|(a & -> & _)]];
      [apply not_elem_of_nil|by intros ?%list_elem_of_singleton..]. }
  destruct r as [u|st]; simpl; last done.
  by intros [?|?]%elem_of_app.
Qed.


(** X7: the header line is written only when it was asked for, and then
    it is the first thing written; nothing later is a header line. *)
Theorem header_written_first_and_once
    printHeader useShortRefName references header records i :
  trace (run printHeader useShortRefName references header records) !! i
    = Some PrintHeader →
  printHeader = true ∧ i = 0.
Proof.
  unfold main.
  destruct (setup_cases RearrangeReferences useShortRefName references header)
    as [[_ ->]|[_ [[cat ->]|[[_ [n ->]]| ->]]]]; simpl.
  - by rewrite lookup_nil.
  - intros Hi.
    assert (∀ k, trace (loop useShortRefName references cat records) !! k
                 ≠ Some PrintHeader) as Hloop.
    { intros k Hk%list_elem_of_lookup_2.
      by apply loop_writes_no_header in Hk. }
    destruct printHeader; simpl in Hi.
    + destruct i as [|i]; first done. simpl in Hi. by apply Hloop in Hi.
    + by apply Hloop in Hi.
  - intros Hi. destruct i as [|i]; simpl in Hi; first done.
    by rewrite lookup_nil in Hi.
  - by rewrite lookup_nil.
Qed.

(** X8: unmapped records leave no mark: taking them out of the input
    changes neither what is written nor how the process ends. *)
Theorem unmapped_records_leave_no_trace
    printHeader useShortRefName references header records :
  let mapped := filter (λ sam, SAMAlignment.rName sam ≠ "*") records in
  trace (run printHeader useShortRefName references header records)
    = trace (run printHeader useShortRefName references header mapped) ∧
  status (run printHeader useShortRefName references header records)
    = status (run printHeader useShortRefName references header mapped).
Proof.
  intros mapped. unfold main.
  destruct (setup _ _ _ _) as [out [cat|st]]; last done.
  assert (trace (loop useShortRefName references cat records)
            = trace (loop useShortRefName references cat mapped) ∧
          status (loop useShortRefName references cat records)
            = status (loop useShortRefName references cat mapped))
    as [Ht Hs]; last by simpl; rewrite Ht, Hs.
  subst mapped. induction records as [|sam records [IHt IHs]]; first done.
  destruct (decide (SAMAlignment.rName sam = "*")) as [Hu|Hm].
  - rewrite filter_cons_False by (intros ?; done).
    rewrite <- IHt, <- IHs. simpl. unfold loop_body.
    by destruct (decide (SAMAlignment.rName sam = "*")).
  - rewrite filter_cons_True by done. simpl.
    destruct (body useShortRefName references cat sam) as [out' [u|st]];
      simpl; last done.
    by rewrite IHt, IHs.
Qed.

(** X9: every record read gives at most one row: the rows written and the
    records left unread never add up to more than the input. *)
Theorem at_most_one_row_per_record
    printHeader useShortRefName references header records :
  length (rows (trace
            (run printHeader useShortRefName references header records)))
  + length (unread
              (run printHeader useShortRefName references header records))
  ≤ length records.
Proof.
  unfold main.
  destruct (setup_cases RearrangeReferences useShortRefName references header)
    as [[_ ->]|[_ [[cat ->]|[[_ [n ->]]| ->]]]]; simpl; try lia.
  assert (rows (trace (loop useShortRefName references cat records))
          = rows ((if printHeader then [PrintHeader] else [])
                    ++ trace (loop useShortRefName references cat records)))
    as <- by by destruct printHeader.
  clear. induction records as [|sam records IH]; simpl; first lia.
  destruct (body_out_cases useShortRefName references cat sam)
    as (out & r & -> & Hout).
  destruct r as [u|st]; simpl.
  - unfold rows in *. rewrite omap_app, length_app.
    destruct Hout as [->|[[message ->]|(a & -> & _)]]; simpl; lia.
  - destruct Hout as [->|[[message ->]|(a & -> & [=])]]; simpl; lia.
Qed.

(** X10: the process returns 0 only when every record has been read. *)
Theorem returns_only_after_reading_everything
    printHeader useShortRefName references header records :
  status (run printHeader useShortRefName references header records)
    = Returned →
  unread (run printHeader useShortRefName references header records) = [].
Proof.
  unfold main.
  destruct (setup_cases RearrangeReferences useShortRefName references header)
    as [[_ ->]|[_ [[cat ->]|[[_ [n ->]]| ->]]]]; simpl; try done.
  induction records as [|sam records IH]; simpl; first done.
  destruct (body useShortRefName references cat sam) as [out [u|st]] eqn:E;
    simpl; first done.
  intros ->. by apply body_status_not_returned in E.
Qed.


(** X17: with full names in use, every row written is what the loop body
    wrote for one source record, and its target name is the title of the
    catalogue entry whose header descriptor carries the reference name of
    that record. *)
Theorem full_names_reach_the_rows
    printHeader references header records a :
  names_target_after_record SAMAlignmentsToCandidates →
  keeps_tName ComputeAlignmentStats →
  PrintFromSAM a
    ∈ trace (run printHeader false references header records) →
  ∃ cat sam i r reference,
    setup RearrangeReferences false references header = ([], inl cat) ∧
    sam ∈ records ∧
    body false references cat sam = ([PrintFromSAM a], inl tt) ∧
    RearrangeReferences references header !! i = Some r ∧
    name r = SAMAlignment.rName sam ∧
    references !! i = Some reference ∧
    AlignmentCandidate.tName a = FASTASequence.title reference.
Proof.
  intros Hbuild Hstats (cat & sam & Hsetup & Hsam & Hbody)%main_emitted.
  destruct (body_emitted_inv _ _ _ _ _ _ _ _ Hbody)
    as (sam' & c & _ & Hres & _ & Hb & Ha).
  rewrite Ha in Hbody |- *.
  destruct (resolve_name_cases false (shortRefNameToFull cat) sam)
    as [[? _]|[(full & _ & Hfull & Hr)|(_ & _ & Hr)]]; try done;
    rewrite Hr in Hres; last done.
  injection Hres as <-.
  destruct (name_map_entry _ _ _ _ _ _ Hsetup Hfull)
    as (i & r & reference & Hi & Href & Hn & Htitle).
  exists cat, sam, i, r, reference. repeat (split; first done).
  destruct (reconcile_frame (SAMAlignment.set_rName full sam)
              (ComputeAlignmentStats c (AlignmentCandidate.qAlignedSeq c)
                 (AlignmentCandidate.tAlignedSeq c) distScoreFn))
    as (_ & -> & _).
  rewrite Hstats, Htitle.
  apply (Hbuild _ _ _ _ _ _ _ Hb). by left.
Qed.

End Coverage.

(** ** What the run does not depend on *)

Section Independence.

Context {T_ScoreFn : Type}.
Variable RearrangeReferences :
  list FASTASequence.t → list SAMFullReferenceSequence.t →
  list SAMFullReferenceSequence.t.
Variables SAMAlignmentsToCandidates SAMAlignmentsToCandidates' :
  SAMAlignment.t → list FASTASequence.t → gmap string Z → bool → bool →
  BuildResult.
Variables ComputeAlignmentStats ComputeAlignmentStats' :
  AlignmentCandidate.t → string → string → T_ScoreFn → AlignmentCandidate.t.
Variables distScoreFn distScoreFn' : T_ScoreFn.

(** Reconciliation forgets the score and the mapping quality it is
    given. *)
Lemma reconcile_forgets sam a b :
  AlignmentCandidate.set_mapQV 0 (AlignmentCandidate.set_score 0 a)
    = AlignmentCandidate.set_mapQV 0 (AlignmentCandidate.set_score 0 b) →
  reconcile sam a = reconcile sam b.
Proof.
  destruct a, b. unfold AlignmentCandidate.set_mapQV,
    AlignmentCandidate.set_score; simpl.
  intros [= -> -> -> -> -> -> -> -> -> -> -> -> -> -> ->].
  unfold reconcile. by destruct (decide _).
Qed.

(** X13: the score matrix does not matter (lines 146-147): two statistics
    engines, each with its score function, that agree on everything but
    the score and the mapping quality they set give the same run. *)
Theorem statistics_score_is_discarded
    printHeader useShortRefName references header records :
  (∀ alignment qSeq tSeq,
     AlignmentCandidate.set_mapQV 0
       (AlignmentCandidate.set_score 0
          (ComputeAlignmentStats alignment qSeq tSeq distScoreFn))
     = AlignmentCandidate.set_mapQV 0
         (AlignmentCandidate.set_score 0
            (ComputeAlignmentStats' alignment qSeq tSeq distScoreFn'))) →
  main RearrangeReferences SAMAlignmentsToCandidates ComputeAlignmentStats
    distScoreFn printHeader useShortRefName references header records
  = main RearrangeReferences SAMAlignmentsToCandidates ComputeAlignmentStats'
      distScoreFn' printHeader useShortRefName references header records.
Proof.
  intros Hagree. unfold main.
  destruct (setup _ _ _ _) as [out [cat|st]]; last done. f_equal.
  induction records as [|sam records IH]; first done.
  simpl. rewrite IH.
  replace (loop_body SAMAlignmentsToCandidates ComputeAlignmentStats'
             distScoreFn' useShortRefName references cat sam)
    with (loop_body SAMAlignmentsToCandidates ComputeAlignmentStats
            distScoreFn useShortRefName references cat sam); first done.
  unfold loop_body. destruct (decide _); first done.
  destruct (resolve_name _ _ _) as [out' [sam'|st]]; last done.
  unfold mbind, M_bind.
  destruct (decide _); first done.
  destruct (SAMAlignmentsToCandidates _ _ _ _ _) as [cs|]; last done.
  destruct (decide _); first done.
  destruct (cs !! 0) as [c|]; last done.
  unfold emit. by rewrite (reconcile_forgets sam' _ _ (Hagree c _ _)).
Qed.

(** X14: a record whose CIGAR string has a 'P' never reaches the builder,
    and the builder is only ever called with [parseSmrtTitle] and
    [keepRefAsForward] off: two builders that agree on such calls for
    unpadded records give the same run. *)
Theorem builder_sees_only_unpadded_records
    printHeader useShortRefName references header records :
  (∀ sam refs index,
     string_find "P"%char (SAMAlignment.cigar sam) = None →
     SAMAlignmentsToCandidates sam refs index false false
     = SAMAlignmentsToCandidates' sam refs index false false) →
  main RearrangeReferences SAMAlignmentsToCandidates ComputeAlignmentStats
    distScoreFn printHeader useShortRefName references header records
  = main RearrangeReferences SAMAlignmentsToCandidates' ComputeAlignmentStats
      distScoreFn printHeader useShortRefName references header records.
Proof.
  intros Hagree. unfold main.
  destruct (setup _ _ _ _) as [out [cat|st]]; last done. f_equal.
  induction records as [|sam records IH]; first done.
  simpl. rewrite IH.
  replace (loop_body SAMAlignmentsToCandidates' ComputeAlignmentStats
             distScoreFn useShortRefName references cat sam)
    with (loop_body SAMAlignmentsToCandidates ComputeAlignmentStats
            distScoreFn useShortRefName references cat sam); first done.
  unfold loop_body. destruct (decide _); first done.
  destruct (resolve_name _ _ _) as [out' [sam'|st]]; last done.
  unfold mbind, M_bind.
  destruct (decide _) as [|HP%eq_None_not_Some]; first done.
  unfold parseSmrtTitle, keepRefAsForward. by rewrite (Hagree _ _ _ HP).
Qed.

End Independence.

(** ** The statements of this part on the sample inputs *)

Lemma name_map_binds_names_to_titles_witness :
  shortRefNameToFull Sample.cat !! "chrB" = Some "chrB second chromosome" ↔
  ∃ i r reference,
    Model.RearrangeReferences Sample.references Sample.header !! i = Some r ∧
    Sample.references !! i = Some reference ∧
    SAMFullReferenceSequence.GetSequenceName r = "chrB" ∧
    FASTASequence.title reference = "chrB second chromosome".
Proof.
  apply (name_map_binds_names_to_titles Model.RearrangeReferences
           Sample.references Sample.header Sample.cat).
  by vm_compute.
Defined.

Lemma full_names_replace_header_names_witness :
  alignmentSet_references Sample.cat
  = zip_with SAMFullReferenceSequence.set_sequenceName
      (FASTASequence.title <$> Sample.references)
      (Model.RearrangeReferences Sample.references Sample.header).
Proof.
  apply (full_names_replace_header_names Model.RearrangeReferences
           Sample.references Sample.header Sample.cat).
  by vm_compute.
Defined.

Lemma name_index_points_at_last_bearer_witness :
  ∃ cat,
    setup Model.RearrangeReferences true Sample.references
      Sample.duplicate_header = ([], inl cat) ∧
    (refNameToIndex cat !! "chrA" = Some 1%Z ↔
     ∃ i r,
       1%Z = Z.of_nat i ∧
       alignmentSet_references cat !! i = Some r ∧
       SAMFullReferenceSequence.GetSequenceName r = "chrA" ∧
       ∀ j r', i < j → alignmentSet_references cat !! j = Some r' →
               SAMFullReferenceSequence.GetSequenceName r' ≠ "chrA").
Proof.
  eexists. split; first by vm_compute.
  apply (name_index_points_at_last_bearer Model.RearrangeReferences true
           Sample.references Sample.duplicate_header).
  by vm_compute.
Defined.

Lemma resolved_name_is_in_catalogue_witness :
  ∃ i reference,
    refNameToIndex Sample.cat !! "chrA first chromosome"
      = Some (Z.of_nat i) ∧
    Sample.references !! i = Some reference ∧
    FASTASequence.title reference = "chrA first chromosome".
Proof.
  apply (resolved_name_is_in_catalogue Model.RearrangeReferences
           Sample.references Sample.header Sample.cat "chrA").
  - by vm_compute.
  - by vm_compute.
Defined.

Lemma header_written_first_and_once_witness :
  trace (Model.main true false Sample.references Sample.header
           Sample.records) !! 0 = Some PrintHeader ∧
  true = true ∧ 0 = 0.
Proof.
  split; first by vm_compute.
  apply (header_written_first_and_once Model.RearrangeReferences
           Model.SAMAlignmentsToCandidates Model.ComputeAlignmentStats
           Model.distScoreFn true false Sample.references Sample.header
           Sample.records 0).
  by vm_compute.
Defined.

Lemma returns_only_after_reading_everything_witness :
  status (Model.main true false Sample.references Sample.header
            Sample.records) = Returned ∧
  unread (Model.main true false Sample.references Sample.header
            Sample.records) = [].
Proof.
  split; first by vm_compute.
  apply (returns_only_after_reading_everything Model.RearrangeReferences
           Model.SAMAlignmentsToCandidates Model.ComputeAlignmentStats
           Model.distScoreFn true false Sample.references Sample.header
           Sample.records).
  by vm_compute.
Defined.

Lemma statistics_score_is_discarded_witness :
  main Model.RearrangeReferences Model.SAMAlignmentsToCandidates
    Model.ComputeAlignmentStats Model.distScoreFn true false
    Sample.references Sample.header Sample.records
  = main Model.RearrangeReferences Model.SAMAlignmentsToCandidates
      Model.ComputeAlignmentStats (λ _ _, 7%Z) true false
      Sample.references Sample.header Sample.records.
Proof.
  apply (statistics_score_is_discarded Model.RearrangeReferences
           Model.SAMAlignmentsToCandidates Model.ComputeAlignmentStats
           Model.ComputeAlignmentStats Model.distScoreFn (λ _ _, 7%Z)).
  intros alignment qSeq tSeq. reflexivity.
Defined.

Lemma builder_sees_only_unpadded_records_witness :
  main Model.RearrangeReferences Model.SAMAlignmentsToCandidates
    Model.ComputeAlignmentStats Model.distScoreFn true false
    Sample.references Sample.header Sample.records
  = main Model.RearrangeReferences Fake.refuses_padding
      Model.ComputeAlignmentStats Model.distScoreFn true false
      Sample.references Sample.header Sample.records.
Proof.
  apply (builder_sees_only_unpadded_records Model.RearrangeReferences
           Model.SAMAlignmentsToCandidates Fake.refuses_padding
           Model.ComputeAlignmentStats Model.distScoreFn).
  intros sam refs index HP. unfold Fake.refuses_padding.
  destruct (decide _) as [[? HP']|_]; [congruence|reflexivity].
Defined.

Lemma first_repeated_name_is_reported_witness :
  Model.main true false Sample.references Sample.duplicate_header
    Sample.records
  = {| trace := [Cout "ERROR, Found more than one reference chrAin sam header"];
       status := ExitFailure; unread := Sample.records |}.
Proof.
  apply (first_repeated_name_is_reported Model.RearrangeReferences
           Model.SAMAlignmentsToCandidates Model.ComputeAlignmentStats
           Model.distScoreFn true Sample.references Sample.duplicate_header
           Sample.records 1 (SAMFullReferenceSequence.mk "chrA" 10)).
  - reflexivity.
  - reflexivity.
  - simpl. apply NoDup_singleton.
  - simpl. by left.
Defined.

Lemma full_names_reach_the_rows_witness :
  ∃ cat sam i r reference,
    setup Model.RearrangeReferences false Sample.references Sample.header
      = ([], inl cat) ∧
    sam ∈ Sample.records ∧
    loop_body Model.SAMAlignmentsToCandidates Model.ComputeAlignmentStats
      Model.distScoreFn false Sample.references cat sam
      = ([PrintFromSAM Sample.perfect_row], inl tt) ∧
    Model.RearrangeReferences Sample.references Sample.header !! i = Some r ∧
    SAMFullReferenceSequence.GetSequenceName r = SAMAlignment.rName sam ∧
    Sample.references !! i = Some reference ∧
    AlignmentCandidate.tName Sample.perfect_row
      = FASTASequence.title reference.
Proof.
  apply (full_names_reach_the_rows Model.RearrangeReferences
           Model.SAMAlignmentsToCandidates Model.ComputeAlignmentStats
           Model.distScoreFn true Sample.references Sample.header
           Sample.records Sample.perfect_row).
  - exact SAMAlignmentsToCandidates_names_target.
  - exact ComputeAlignmentStats_keeps_tName.
  - vm_compute. repeat constructor.
Defined.
